(** * SATID support-level optimiser and risk scoring

    Shallow embedding of two Python modules of the SATID website:
    - [Fbis]: generate_Fbis_Levels_Interactive.py (trend detection,
      constrained grid search of the Fbis support line, batch runner);
    - [Core]: SATID_core_calculations.py (EMA, risk scores and the
      per-ticker support level used by the reports).

    Prices of the optimiser are rationals [Q], so that every comparison the
    code makes is decidable and the search can be evaluated; the risk layer,
    which needs square roots, is modelled over the reals [R].  Dates of a
    pandas index are day numbers [Z]; a pandas Series is the list of its
    (index, value) pairs in index order. *)

From Stdlib Require Import QArith Qminmax Qround ZArith Lia Reals Qreals.
From Stdlib Require Lqa Lra.
From Stdlib Require Import List SpecFloat.
From stdpp Require Import base gmap strings.
Import ListNotations.

Module Fbis.

Import Lqa.
Open Scope Q_scope.

(** ** Configuration *)

Definition SUPPORT_TEST_REWARD : Q := 1.
Definition BREACH_PENALTY : Q := 3.
Definition TOUCH_TOLERANCE_PCT : Q := 25 # 10.

Definition ASSET_CLASSES : gmap string string :=
  list_to_map [
    ("SPY", "large_cap"); ("VGK", "large_cap"); ("EWG", "large_cap");
    ("EWQ", "large_cap"); ("EWI", "large_cap"); ("EWJ", "large_cap");
    ("QQQ", "growth_tech"); ("XLK", "growth_tech"); ("XLY", "growth_tech");
    ("HYS", "bond_hy"); ("EMB", "bond_hy"); ("CEMB", "bond_hy");
    ("BIL", "bond_ig"); ("IGSB", "bond_ig"); ("IGIB", "bond_ig"); ("LQD", "bond_ig");
    ("XLV", "sector"); ("XLI", "sector"); ("XLC", "sector"); ("SMH", "sector");
    ("HEAL", "sector"); ("PPA", "sector"); ("PAVE", "sector");
    ("EWZ", "emerging"); ("INDA", "emerging"); ("MCHI", "emerging");
    ("ARKF", "thematic"); ("AIQ", "thematic"); ("EBIZ", "thematic");
    ("BKCH", "thematic"); ("QTUM", "thematic"); ("ARKX", "thematic");
    ("ESPO", "thematic"); ("GLD", "thematic"); ("FTLS", "thematic");
    ("QAI", "thematic"); ("WTMF", "thematic")].

(** Python's [range(start, stop, step)] for a positive step. *)
Definition py_range (start stop step : Z) : list Z :=
  map (fun i => (start + Z.of_nat i * step)%Z)
      (seq 0 (Z.to_nat ((stop - start + step - 1) / step))).

(** Binary64 doubles ([spec_float] with a 53-bit mantissa and the
    exponent range of binary64). *)
Definition binary64_prec : Z := 53.
Definition binary64_emax : Z := 1024.

(** The double a decimal literal of the source denotes: the rational
    [Qnum q / Qden q] rounded to the nearest double, ties to even (both
    integers are exact doubles, and a correctly rounded division gives
    the correctly rounded quotient, as Python's float parser does). *)
Definition double_of_Q (q : Q) : spec_float :=
  SFdiv binary64_prec binary64_emax
    (binary_normalize binary64_prec binary64_emax (Qnum q) 0 false)
    (binary_normalize binary64_prec binary64_emax (Zpos (Qden q)) 0 false).

(** [ceil] of a finite double, as an integer; [None] for an infinity or
    a NaN. *)
Definition double_ceil (f : spec_float) : option Z :=
  match f with
  | S754_zero _ => Some 0%Z
  | S754_finite s m e =>
      let v := cond_Zopp s (Zpos m) in
      Some (if Z.leb 0 e then Z.shiftl v e else (- ((- v) / 2 ^ (- e)))%Z)
  | _ => None
  end.

(** numpy's [arange(start, stop, step)] on Python floats: its length is
    [ceil((stop - start) / step)] computed in doubles (so
    [arange(-0.07, -0.015, 0.005)] has 12 values, the ratio being
    11.000000000000002), its values [start + i * step] (taken here as
    exact rationals).  arange raises when the ratio is not finite (a zero
    step); no literal of [CONSTRAINTS] reaches that case, which is given
    the empty range here. *)
Definition np_arange (start stop step : Q) : list Q :=
  let length := double_ceil
    (SFdiv binary64_prec binary64_emax
       (SFsub binary64_prec binary64_emax (double_of_Q stop) (double_of_Q start))
       (double_of_Q step)) in
  map (fun i => start + inject_Z (Z.of_nat i) * step)
      (seq 0 (Z.to_nat (default 0%Z length))).

Record Constraint := {
  ema_range : list Z;
  shift_range : list Q
}.

Definition CONSTRAINTS : gmap string Constraint :=
  list_to_map [
    ("large_cap", {| ema_range := py_range 18 25 2;
                     shift_range := np_arange (-6 # 100) (-15 # 1000) (5 # 1000) |});
    ("growth_tech", {| ema_range := py_range 18 25 2;
                       shift_range := np_arange (-7 # 100) (-15 # 1000) (5 # 1000) |});
    ("bond_hy", {| ema_range := py_range 16 21 2;
                   shift_range := np_arange (-3 # 100) (5 # 1000) (5 # 1000) |});
    ("bond_ig", {| ema_range := py_range 16 21 2;
                   shift_range := np_arange (-2 # 100) (5 # 1000) (5 # 1000) |});
    ("sector", {| ema_range := py_range 18 27 2;
                  shift_range := np_arange (-8 # 100) (-15 # 1000) (5 # 1000) |});
    ("emerging", {| ema_range := py_range 18 25 2;
                    shift_range := np_arange (-10 # 100) (-25 # 1000) (5 # 1000) |});
    ("thematic", {| ema_range := py_range 20 29 2;
                    shift_range := np_arange (-12 # 100) (-25 # 1000) (5 # 1000) |})].

Definition large_cap_constraint : Constraint :=
  {| ema_range := py_range 18 25 2;
     shift_range := np_arange (-6 # 100) (-15 # 1000) (5 # 1000) |}.

(** Strict comparison of Python floats ([x < y]). *)
Definition Qlt_bool (x y : Q) : bool := negb (Qle_bool y x).

(** ** Series *)

Definition date := Z.
Definition series := list (date * Q).

Definition values (s : series) : list Q := map snd s.

(** [Series.max()] of a non-empty window. *)
Definition series_max (xs : list Q) : Q :=
  match xs with [] => 0 | x :: r => fold_left Qmax r x end.

Definition series_min (xs : list Q) : Q :=
  match xs with [] => 0 | x :: r => fold_left Qmin r x end.

(** [Series.idxmin()]: label of the first minimum; raises on an empty
    series ([None]). *)
Fixpoint idxmin_go (best : date * Q) (s : series) : date * Q :=
  match s with
  | [] => best
  | (d, v) :: r => if Qlt_bool v (snd best) then idxmin_go (d, v) r else idxmin_go best r
  end.

Definition idxmin (s : series) : option date :=
  match s with
  | [] => None
  | p :: r => Some (fst (idxmin_go p r))
  end.

(** [iloc[a:b]] *)
Definition iloc_slice {A} (a b : nat) (l : list A) : list A :=
  firstn (b - a) (skipn a l).

(** ** Trend detection *)

Record SwingPoint := { sp_date : date; sp_price : Q }.

Definition find_swing_highs (high_series : series) (window : nat) : list SwingPoint :=
  flat_map (fun i =>
    match nth_error high_series i with
    | Some (d, v) =>
        let local_window := values (iloc_slice (i - window) (i + window + 1) high_series) in
        if Qeq_bool v (series_max local_window) then [{| sp_date := d; sp_price := v |}] else []
    | None => []
    end)
    (seq window (length high_series - window - window)).

Definition find_swing_lows (low_series : series) (window : nat) : list SwingPoint :=
  flat_map (fun i =>
    match nth_error low_series i with
    | Some (d, v) =>
        let local_window := values (iloc_slice (i - window) (i + window + 1) low_series) in
        if Qeq_bool v (series_min local_window) then [{| sp_date := d; sp_price := v |}] else []
    | None => []
    end)
    (seq window (length low_series - window - window)).

(** The inner loop of [identify_lower_highs]: extend [sequence] while the
    next high is strictly lower than its last element, stop at the first
    that is not. *)
Fixpoint extend_lower (last : Q) (rest : list SwingPoint) : list SwingPoint :=
  match rest with
  | [] => []
  | h :: r => if Qlt_bool (sp_price h) last then h :: extend_lower (sp_price h) r else []
  end.

(** [max(sequences, key=len)]: the first of maximal length. *)
Fixpoint max_by_len (best : list SwingPoint) (l : list (list SwingPoint)) : list SwingPoint :=
  match l with
  | [] => best
  | s :: r => if Nat.ltb (length best) (length s) then max_by_len s r else max_by_len best r
  end.

Definition identify_lower_highs (swing_highs : list SwingPoint) (min_highs : nat) : list SwingPoint :=
  if Nat.ltb (length swing_highs) min_highs then []
  else
    let sequences :=
      flat_map (fun start_idx =>
        match nth_error swing_highs start_idx with
        | Some h =>
            let sequence := h :: extend_lower (sp_price h) (skipn (S start_idx) swing_highs) in
            if Nat.leb min_highs (length sequence) then [sequence] else []
        | None => []
        end) (seq 0 (length swing_highs - 1)) in
    match sequences with
    | [] => []
    | s :: r => max_by_len s r
    end.

(** Last element of a Python list ([l[-1]]), [None] on an empty list. *)
Fixpoint py_last {A} (l : list A) : option A :=
  match l with [] => None | [x] => Some x | _ :: r => py_last r end.

Definition Qsum (l : list Q) : Q := fold_right Qplus 0 l.

(** [scipy.stats.linregress] through [np.cov(x, y, bias=1)]: slope,
    intercept and [r ** 2] (written without the square root). *)
Record LinRegress := { lr_slope : Q; lr_intercept : Q; lr_r_squared : Q }.

Definition linregress (xs ys : list Q) : LinRegress :=
  let n := inject_Z (Z.of_nat (length xs)) in
  let xmean := Qsum xs / n in
  let ymean := Qsum ys / n in
  let ssxm := Qsum (map (fun x => (x - xmean) * (x - xmean)) xs) / n in
  let ssym := Qsum (map (fun y => (y - ymean) * (y - ymean)) ys) / n in
  let ssxym := Qsum (map (fun '(x, y) => (x - xmean) * (y - ymean)) (combine xs ys)) / n in
  let slope := ssxym / ssxm in
  {| lr_slope := slope; lr_intercept := ymean - slope * xmean;
     lr_r_squared := (ssxym * ssxym) / (ssxm * ssym) |}.

Record DowntrendLine := { dl_slope : Q; dl_intercept : Q; dl_r_squared : Q; dl_first_date : date }.

Definition resistance_at_date (line : DowntrendLine) (d : date) : Q :=
  dl_slope line * inject_Z (d - dl_first_date line) + dl_intercept line.

Definition create_downtrend_line (lower_highs : list SwingPoint) : option DowntrendLine :=
  match lower_highs with
  | h0 :: _ :: _ =>
      let first_date := sp_date h0 in
      let dates_numeric := map (fun h => inject_Z (sp_date h - first_date)) lower_highs in
      let prices := map sp_price lower_highs in
      let r := linregress dates_numeric prices in
      Some {| dl_slope := lr_slope r; dl_intercept := lr_intercept r;
              dl_r_squared := lr_r_squared r; dl_first_date := first_date |}
  | _ => None
  end.

Record Breakout := { b_date : date; b_price : Q }.

Fixpoint first_above (line : DowntrendLine) (check_data : series) : option Breakout :=
  match check_data with
  | [] => None
  | (d, v) :: r =>
      if Qlt_bool (resistance_at_date line d) v then Some {| b_date := d; b_price := v |}
      else first_above line r
  end.

Definition detect_breakout (close_series : series) (downtrend_line : option DowntrendLine)
    (start_after_date : date) : option Breakout :=
  match downtrend_line with
  | None => None
  | Some line => first_above line (List.filter (fun '(d, _) => Z.ltb start_after_date d) close_series)
  end.

Record Confirmation := { c_date : date; c_confirmed : bool }.

(** [pd.DateOffset(weeks=w)] on day numbers. *)
Definition confirm_higher_low (low_series : series) (breakout_info : option Breakout)
    (pre_breakout_low : SwingPoint) (weeks_to_wait : Z) : option Confirmation :=
  match breakout_info with
  | None => None
  | Some b =>
      let breakout_date := b_date b in
      let confirmation_window :=
        List.filter (fun '(d, _) => Z.ltb breakout_date d && Z.leb d (breakout_date + 7 * weeks_to_wait))
               low_series in
      match confirmation_window with
      | [] => None
      | _ =>
          let pullback_low_price := series_min (values confirmation_window) in
          if Qlt_bool (sp_price pre_breakout_low) pullback_low_price then
            match idxmin confirmation_window with
            | Some d => Some {| c_date := d; c_confirmed := true |}
            | None => None
            end
          else None
      end
  end.

Inductive DetectionInfo :=
| NoInfo
| WithBreakout (b : Breakout)
| WithConfirmation (b : Breakout) (c : Confirmation).

(** [detect_trend_change]; [None] when [close_series.idxmin()] raises. *)
Definition detect_trend_change (close_series high_series low_series : series)
    : option (date * DetectionInfo) :=
  let fallback := option_map (fun d => (d, NoInfo)) (idxmin close_series) in
  let swing_highs := find_swing_highs high_series 4 in
  if Nat.ltb (length swing_highs) 2 then fallback else
  let lower_highs := identify_lower_highs swing_highs 2 in
  if Nat.ltb (length lower_highs) 2 then fallback else
  let downtrend_line := create_downtrend_line lower_highs in
  match downtrend_line with
  | None => fallback
  | Some _ =>
  match py_last lower_highs with
  | None => None
  | Some last_high =>
  match detect_breakout close_series downtrend_line (sp_date last_high) with
  | None => fallback
  | Some breakout =>
      let swing_lows := find_swing_lows low_series 4 in
      let pre_breakout_lows := List.filter (fun l => Z.ltb (sp_date l) (b_date breakout)) swing_lows in
      match py_last pre_breakout_lows with
      | None => Some (b_date breakout, WithBreakout breakout)
      | Some pre_low =>
          match confirm_higher_low low_series (Some breakout) pre_low 12 with
          | Some c =>
              if c_confirmed c then Some (c_date c, WithConfirmation breakout c)
              else Some (b_date breakout, WithBreakout breakout)
          | None => Some (b_date breakout, WithBreakout breakout)
          end
      end
  end end end.

(** ** The optimiser *)

(** [Series.ewm(span=period, adjust=False).mean()]: [y0 = x0],
    [y_t = (1 - alpha) * y_(t-1) + alpha * x_t], [alpha = 2 / (span + 1)].
    pandas raises [ValueError] for a span below 1; the optimiser only
    calls it with the periods of its grids (16 to 28). *)
Fixpoint ewm_go (alpha prev : Q) (xs : list Q) : list Q :=
  match xs with
  | [] => []
  | x :: r => let y := (1 - alpha) * prev + alpha * x in y :: ewm_go alpha y r
  end.

Definition ewm_mean (span : Z) (xs : list Q) : list Q :=
  let alpha := 2 / (inject_Z span + 1) in
  match xs with [] => [] | x :: r => x :: ewm_go alpha x r end.

(** Selection by a boolean mask; pandas raises [IndexError] when the mask
    and the series differ in length. *)
Definition mask_select {A} (m : list bool) (l : list A) : list A :=
  map snd (List.filter fst (combine m l)).

Definition bool_mask {A} (m : list bool) (l : list A) : option (list A) :=
  if Nat.eqb (length m) (length l) then Some (mask_select m l) else None.

Record Optimizer := {
  o_ticker : string;
  o_close : series;
  o_high : series;
  o_low : series;
  o_asset_class : string;
  o_constraints : Constraint;
  o_trend_start : date;
  o_detection_info : DetectionInfo
}.

(** [ConstrainedFbisOptimizer.__init__]; [None] if [detect_trend_change]
    raises. *)
Definition init (ticker : string) (close_series high_series low_series : series) : option Optimizer :=
  let asset_class := default "large_cap" (ASSET_CLASSES !! ticker) in
  match CONSTRAINTS !! "large_cap" with
  | None => None
  | Some fallback_constraint =>
      let constraints := default fallback_constraint (CONSTRAINTS !! asset_class) in
      match detect_trend_change close_series high_series low_series with
      | None => None
      | Some (trend_start, detection_info) =>
          Some {| o_ticker := ticker; o_close := close_series; o_high := high_series;
                  o_low := low_series; o_asset_class := asset_class;
                  o_constraints := constraints; o_trend_start := trend_start;
                  o_detection_info := detection_info |}
      end
  end.

Definition _calculate_ema (o : Optimizer) (period : Z) : list Q :=
  ewm_mean period (values (o_close o)).

Record OptResult := {
  r_period : Z;
  r_shift : Q;
  r_tests : nat;
  r_breaches : nat;
  r_score : Q;
  r_trend_start : date;
  r_asset_class : option string
}.

Definition default_result (trend_start : date) : OptResult :=
  {| r_period := 20; r_shift := -5 # 100; r_tests := 0; r_breaches := 0;
     r_score := 0; r_trend_start := trend_start; r_asset_class := None |}.

(** [((low_price - fbis_level) / fbis_level) * 100] on numpy float64
    values: dividing by a zero support level gives [inf], [-inf] or [nan]
    (a warning, not an exception), represented by [None]. *)
Definition distance_pct_of (fbis_level low_price : Q) : option Q :=
  if Qeq_bool fbis_level 0 then None
  else Some (((low_price - fbis_level) / fbis_level) * 100).

(** [-TOUCH_TOLERANCE_PCT <= distance_pct <= TOUCH_TOLERANCE_PCT]; no
    comparison holds for [inf], [-inf] or [nan]. *)
Definition in_tolerance (distance_pct : option Q) : bool :=
  match distance_pct with
  | Some d => Qle_bool (- TOUCH_TOLERANCE_PCT) d && Qle_bool d TOUCH_TOLERANCE_PCT
  | None => false
  end.

(** One week of the evaluation loop: support test, breach, or neither. *)
Definition classify_week (fbis_level low_price close_price : Q) (acc : nat * nat) : nat * nat :=
  let '(support_tests, breaches) := acc in
  let distance_pct := distance_pct_of fbis_level low_price in
  if in_tolerance distance_pct then
    (if Qle_bool fbis_level close_price then (S support_tests, breaches)
     else (support_tests, breaches))
  else if Qlt_bool close_price fbis_level then (support_tests, S breaches)
  else (support_tests, breaches).

Fixpoint evaluate_weeks (fbis_line opt_low opt_close : list Q) (acc : nat * nat) : nat * nat :=
  match fbis_line, opt_low, opt_close with
  | f :: fs, l :: ls, c :: cs => evaluate_weeks fs ls cs (classify_week f l c acc)
  | _, _, _ => acc
  end.

Definition score_of (support_tests breaches : nat) : Q :=
  inject_Z (Z.of_nat support_tests) * SUPPORT_TEST_REWARD
  - inject_Z (Z.of_nat breaches) * BREACH_PENALTY.

Definition fbis_line_of (ema : list Q) (shift : Q) : list Q :=
  map (fun e => e * (1 + shift)) ema.

(** Body of the inner [for shift in ...] loop. *)
Definition shift_step (o : Optimizer) (opt_low opt_close ema : list Q) (period : Z)
    (st : option OptResult * Q) (shift : Q) : option OptResult * Q :=
  let '(best, best_score) := st in
  let fbis_line := fbis_line_of ema shift in
  let '(support_tests, breaches) := evaluate_weeks fbis_line opt_low opt_close (0%nat, 0%nat) in
  let score := score_of support_tests breaches in
  if Qlt_bool best_score score then
    (Some {| r_period := period; r_shift := shift; r_tests := support_tests;
             r_breaches := breaches; r_score := score; r_trend_start := o_trend_start o;
             r_asset_class := Some (o_asset_class o) |}, score)
  else st.

(** Body of the outer [for period in ...] loop. *)
Definition period_step (o : Optimizer) (opt_mask : list bool) (opt_low opt_close : list Q)
    (st : option OptResult * Q) (period : Z) : option OptResult * Q :=
  let ema_full := _calculate_ema o period in
  let ema := mask_select opt_mask ema_full in
  fold_left (shift_step o opt_low opt_close ema period) (shift_range (o_constraints o)) st.

Definition opt_mask_of (o : Optimizer) : list bool :=
  map (fun '(d, _) => Z.leb (o_trend_start o) d) (o_close o).

(** [ConstrainedFbisOptimizer.optimize]; [None] when [self.low[opt_mask]]
    raises. *)
Definition optimize (o : Optimizer) : option OptResult :=
  let opt_mask := opt_mask_of o in
  match bool_mask opt_mask (values (o_close o)), bool_mask opt_mask (values (o_low o)) with
  | Some opt_close, Some opt_low =>
      if Nat.ltb (length opt_close) 10 then Some (default_result (o_trend_start o))
      else
        let '(best, _) :=
          fold_left (period_step o opt_mask opt_low opt_close)
                    (ema_range (o_constraints o)) (None, -999999) in
        Some (match best with Some b => b | None => default_result (o_trend_start o) end)
  | _, _ => None
  end.

(** ** Batch runner *)

(** A DataFrame column with NaN as [None]; [dropna] keeps the rest. *)
Definition column := list (date * option Q).

Definition dropna (c : column) : series :=
  flat_map (fun '(d, v) => match v with Some x => [(d, x)] | None => [] end) c.

Definition DataFrame := gmap string column.

Definition default_params : Z * Q := (20%Z, -5 # 100).

(** One iteration of the loop of [optimize_all_etfs]; [None] when the
    optimiser raises. *)
Definition optimize_one (df : DataFrame) (params : gmap string (Z * Q)) (ticker : string)
    : option (gmap string (Z * Q)) :=
  match df !! (ticker +:+ "_close"), df !! (ticker +:+ "_high"), df !! (ticker +:+ "_low") with
  | Some cc, Some hc, Some lc =>
      let close_series := dropna cc in
      let high_series := dropna hc in
      let low_series := dropna lc in
      if Nat.ltb (length close_series) 52 then Some (<[ticker := default_params]> params)
      else
        match init ticker close_series high_series low_series with
        | None => None
        | Some optimizer =>
            match optimize optimizer with
            | None => None
            | Some result => Some (<[ticker := (r_period result, r_shift result)]> params)
            end
        end
  | _, _, _ => Some (<[ticker := default_params]> params)
  end.

Fixpoint optimize_all_go (df : DataFrame) (params : gmap string (Z * Q)) (tickers : list string)
    : option (gmap string (Z * Q)) :=
  match tickers with
  | [] => Some params
  | t :: r =>
      match optimize_one df params t with
      | None => None
      | Some params' => optimize_all_go df params' r
      end
  end.

Definition optimize_all_etfs (df : DataFrame) (tickers : list string) : option (gmap string (Z * Q)) :=
  optimize_all_go df ∅ tickers.

(** ** Sample data

    Weekly bars (day numbers 0, 7, 14, ...) used to evaluate the model. *)
Definition weekly (l : list Z) : series :=
  map (fun '(i, v) => (Z.of_nat i * 7, inject_Z v)%Z) (combine (seq 0 (length l)) l).

Definition sample_close : series :=
  weekly [100;98;96;97;99;101;100;97;94;92;93;95;98;96;93;90;88;89;92;95;99;103;106;108;
          107;105;104;106;109;111;110]%Z.
Definition sample_high : series := map (fun '(d, v) => (d, v + 1)) sample_close.
Definition sample_low : series := map (fun '(d, v) => (d, v - 2)) sample_close.
Definition sample_rising : series := weekly [1;2;3;4;5;6;7;8;9;10;11;12]%Z.

(** ** Lemmas *)

Lemma Qlt_bool_iff (x y : Q) : Qlt_bool x y = true <-> x < y.
Proof.
  unfold Qlt_bool. rewrite negb_true_iff. split.
  - intros H. apply Qnot_le_lt. intros Hle. apply Qle_bool_iff in Hle. congruence.
  - intros H. destruct (Qle_bool y x) eqn:E; [|reflexivity].
    apply Qle_bool_iff in E. exfalso. apply (Qlt_not_le _ _ H E).
Qed.

Lemma Qlt_bool_false (x y : Q) : Qlt_bool x y = false <-> y <= x.
Proof.
  unfold Qlt_bool. rewrite negb_false_iff. apply Qle_bool_iff.
Qed.

Lemma idxmin_go_spec (s : series) : forall best,
  In (idxmin_go best s) (best :: s) /\ snd (idxmin_go best s) <= snd best /\
  (forall p, In p s -> snd (idxmin_go best s) <= snd p).
Proof.
  induction s as [|[d v] r IH]; intros best; simpl.
  - split; [left; reflexivity|]. split; [apply Qle_refl|]. intros p [].
  - destruct (Qlt_bool v (snd best)) eqn:E.
    + apply Qlt_bool_iff in E. destruct (IH (d, v)) as (Hin & Hle & Hall).
      simpl in Hle. split; [right; exact Hin|]. split.
      * apply Qlt_le_weak. apply (Qle_lt_trans _ _ _ Hle E).
      * intros p [<-|Hp]; [exact Hle|apply Hall; exact Hp].
    + apply Qlt_bool_false in E. destruct (IH best) as (Hin & Hle & Hall).
      split; [destruct Hin as [Hin|Hin]; [left; exact Hin|right; right; exact Hin]|].
      split; [exact Hle|].
      intros p [<-|Hp]; [apply (Qle_trans _ _ _ Hle E)|apply Hall; exact Hp].
Qed.

Lemma evaluate_weeks_breaches (fs : list Q) : forall (ls cs : list Q) t b,
  (snd (evaluate_weeks fs ls cs (t, b)) <= b + length cs)%nat.
Proof.
  induction fs as [|f fs IH]; intros ls cs t b; destruct ls as [|l ls]; destruct cs as [|c cs];
    simpl; try lia.
  unfold classify_week.
  destruct (in_tolerance _); [destruct (Qle_bool f c)|destruct (Qlt_bool c f)];
    (eapply Nat.le_trans; [apply IH|]); simpl; lia.
Qed.

(** The band test of [optimize]: the low lies within the tolerance band
    around the support level. *)
Definition low_in_band (fbis_level low_price : Q) : bool :=
  in_tolerance (distance_pct_of fbis_level low_price).

Definition count_bars (p : Q -> Q -> Q -> bool) (fs ls cs : list Q) : nat :=
  length (List.filter (fun '(f, l, c) => p f l c) (combine (combine fs ls) cs)).

(** ** Bar classification (claim C1) *)

(** C1, what the loop computes: over the evaluation window, the
    support-test count is the number of bars whose low is within the
    +/-2.5% band of the support level and whose close is at or above it,
    and the breach count is the number of bars whose low is OUTSIDE the
    band and whose close is strictly below the support level.  A bar whose
    low is in the band but whose close is below the support level is
    counted in neither, although the loop's comment ("Breach: close
    finishes below Fbis") and the documented priority order count it as a
    breach: the breach test is an [elif] of the band test instead of an
    [else] of the support test. *)
Theorem evaluate_weeks_counts (fs : list Q) : forall (ls cs : list Q) (t b : nat),
  evaluate_weeks fs ls cs (t, b) =
  (t + count_bars (fun f l c => low_in_band f l && Qle_bool f c) fs ls cs,
   b + count_bars (fun f l c => negb (low_in_band f l) && Qlt_bool c f) fs ls cs)%nat.
Proof.
  unfold count_bars.
  induction fs as [|f fs IH]; intros ls cs t b; destruct ls as [|l ls]; destruct cs as [|c cs];
    simpl; try (f_equal; lia).
  unfold classify_week. fold (low_in_band f l).
  destruct (low_in_band f l); simpl;
    [destruct (Qle_bool f c) | destruct (Qlt_bool c f)]; simpl; rewrite IH; f_equal; lia.
Qed.

(** C1, failing input: support level 100, low 99 (1% below the level,
    inside the band), close 99.5 (strictly below the level).  The
    documented priority order counts this bar as a breach; the code counts
    it in neither total. *)
Lemma in_band_close_below_not_breach :
  low_in_band 100 99 = true /\ Qlt_bool (199 # 2) 100 = true /\
  evaluate_weeks [100] [99] [199 # 2] (0%nat, 0%nat) = (0%nat, 0%nat).
Proof. vm_compute. split; [reflexivity | split; reflexivity]. Qed.

(** ** Score (claim C9) *)

(** C9: for a fixed number of support tests, more breaches give a strictly
    smaller score ([tests * 1.0 - breaches * 3.0]). *)
Theorem score_of_breaches_strict_anti (t b1 b2 : nat) :
  (b1 < b2)%nat -> score_of t b2 < score_of t b1.
Proof.
  intros H. unfold score_of, SUPPORT_TEST_REWARD, BREACH_PENALTY.
  assert (Hq : inject_Z (Z.of_nat b1) < inject_Z (Z.of_nat b2)).
  { rewrite <- Zlt_Qlt. lia. }
  set (x1 := inject_Z (Z.of_nat b1)) in *. set (x2 := inject_Z (Z.of_nat b2)) in *.
  set (y := inject_Z (Z.of_nat t)). lra.
Qed.

Lemma score_of_breaches_strict_anti_witness :
  (1 < 2)%nat /\ score_of 4 2 < score_of 4 1.
Proof.
  split; [lia | apply (score_of_breaches_strict_anti 4 1 2); lia].
Defined.

(** ** Fallback trend start (claim C4) *)

(** C4: when the swing-high detector (window 4) finds fewer than two swing
    highs, the trend start is the date of a minimum close of the series
    and no detection information is returned. *)
Theorem detect_trend_change_few_highs (close_series high_series low_series : series) :
  (length (find_swing_highs high_series 4) < 2)%nat -> close_series <> [] ->
  exists d v,
    detect_trend_change close_series high_series low_series = Some (d, NoInfo) /\
    In (d, v) close_series /\ (forall d' v', In (d', v') close_series -> v <= v').
Proof.
  intros Hfew Hne. unfold detect_trend_change.
  apply Nat.ltb_lt in Hfew. rewrite Hfew.
  destruct close_series as [|p r]; [congruence|].
  unfold idxmin. simpl option_map.
  destruct (idxmin_go_spec r p) as (Hin & Hle & Hall).
  destruct (idxmin_go p r) as [d v] eqn:E. simpl in *.
  exists d, v. split; [reflexivity|]. split; [exact Hin|].
  intros d' v' [Heq|Hin']; [subst p; exact Hle|exact (Hall _ Hin')].
Qed.

Lemma detect_trend_change_few_highs_witness :
  (length (find_swing_highs sample_rising 4) < 2)%nat /\ sample_rising <> [] /\
  exists d v,
    detect_trend_change sample_rising sample_rising sample_rising = Some (d, NoInfo) /\
    In (d, v) sample_rising /\ (forall d' v', In (d', v') sample_rising -> v <= v').
Proof.
  split; [vm_compute; lia|]. split; [discriminate|].
  apply detect_trend_change_few_highs; [vm_compute; lia | discriminate].
Defined.

(** ** Profile of unmapped instruments (claim C6) *)

Lemma CONSTRAINTS_large_cap : CONSTRAINTS !! "large_cap" = Some large_cap_constraint.
Proof. vm_compute. reflexivity. Qed.

(** The shift grids have numpy's lengths: 12 shifts for [growth_tech]
    (the last one -0.015) and 16 for [emerging] (the last one -0.025),
    the float ratios being 11.000000000000002 and 15.000000000000002. *)
Lemma CONSTRAINTS_shift_range_lengths :
  map (fun k => option_map (fun c => length (shift_range c)) (CONSTRAINTS !! k))
    ["large_cap"; "growth_tech"; "bond_hy"; "bond_ig"; "sector"; "emerging"; "thematic"] =
  map Some [9; 12; 7; 5; 13; 16; 19]%nat /\
  option_map (fun c => option_map Qred (py_last (shift_range c))) (CONSTRAINTS !! "growth_tech") =
  Some (Some (-3 # 200)) /\
  option_map (fun c => option_map Qred (py_last (shift_range c))) (CONSTRAINTS !! "emerging") =
  Some (Some (-1 # 40)).
Proof. vm_compute. split; [reflexivity | split; reflexivity]. Qed.

(** C6, as amended: an instrument missing from [ASSET_CLASSES] gets the
    [large_cap] class and its profile: periods 18, 20, 22, 24 and shifts
    -0.06 to -0.02 in steps of 0.005. *)
Theorem init_unmapped_large_cap (ticker : string) (cs hs ls : series) (o : Optimizer) :
  ASSET_CLASSES !! ticker = None -> init ticker cs hs ls = Some o ->
  o_asset_class o = "large_cap" /\ o_constraints o = large_cap_constraint /\
  ema_range (o_constraints o) = [18; 20; 22; 24]%Z /\
  map Qred (shift_range (o_constraints o)) = map Qred
    [-6 # 100; -55 # 1000; -5 # 100; -45 # 1000; -4 # 100; -35 # 1000; -3 # 100;
     -25 # 1000; -2 # 100].
Proof.
  intros Hnone Hinit. unfold init in Hinit. rewrite Hnone in Hinit. simpl in Hinit.
  rewrite CONSTRAINTS_large_cap in Hinit. simpl in Hinit.
  destruct (detect_trend_change cs hs ls) as [[ts info]|]; [|discriminate].
  injection Hinit as <-. simpl.
  split; [reflexivity|]. split; [reflexivity|]. split; vm_compute; reflexivity.
Qed.

Lemma init_unmapped_large_cap_witness :
  exists o, ASSET_CLASSES !! "XYZ" = None /\ init "XYZ" sample_close sample_high sample_low = Some o /\
  (o_asset_class o = "large_cap" /\ o_constraints o = large_cap_constraint /\
   ema_range (o_constraints o) = [18; 20; 22; 24]%Z /\
   map Qred (shift_range (o_constraints o)) = map Qred
     [-6 # 100; -55 # 1000; -5 # 100; -45 # 1000; -4 # 100; -35 # 1000; -3 # 100;
      -25 # 1000; -2 # 100]).
Proof.
  destruct (init "XYZ" sample_close sample_high sample_low) as [o|] eqn:E.
  - exists o. split; [vm_compute; reflexivity|]. split; [reflexivity|].
    apply (init_unmapped_large_cap "XYZ" sample_close sample_high sample_low o);
      [vm_compute; reflexivity | exact E].
  - exfalso. vm_compute in E. discriminate.
Defined.

(** C6 counterexample: the unmapped ticker "XYZ" is given the [large_cap]
    profile, yet the [sector] profile has the period 26 that [large_cap]
    lacks and the [thematic] profile has the shift -0.12 that it lacks:
    the profile given is not the widest. *)
Lemma unmapped_profile_not_widest :
  ASSET_CLASSES !! "XYZ" = None /\
  match init "XYZ" sample_close sample_high sample_low with
  | Some o =>
      (exists c, CONSTRAINTS !! "sector" = Some c /\
         existsb (Z.eqb 26) (ema_range c) = true /\
         existsb (Z.eqb 26) (ema_range (o_constraints o)) = false) /\
      (exists c, CONSTRAINTS !! "thematic" = Some c /\
         existsb (Qeq_bool (-12 # 100)) (shift_range c) = true /\
         existsb (Qeq_bool (-12 # 100)) (shift_range (o_constraints o)) = false)
  | None => False
  end.
Proof.
  split; [vm_compute; reflexivity|].
  vm_compute. split; eexists; (split; [reflexivity|]); split; reflexivity.
Qed.

(** ** Grid search (claim C2) *)

Section FirstMax.

Context {X Res : Type}.
Variable sc : X -> Q.
Variable mk : X -> Res.

(** The update of the search state: a candidate replaces the incumbent only
    when its score is strictly greater. *)
Definition improve (st : option Res * Q) (x : X) : option Res * Q :=
  if Qlt_bool (snd st) (sc x) then (Some (mk x), sc x) else st.

Lemma fold_improve_none (l : list X) : forall st,
  (forall x, In x l -> sc x <= snd st) -> fold_left improve l st = st.
Proof.
  induction l as [|a l IH]; intros st H; simpl; [reflexivity|].
  unfold improve at 2.
  destruct (Qlt_bool (snd st) (sc a)) eqn:E.
  - apply Qlt_bool_iff in E. exfalso.
    apply (Qlt_not_le _ _ E). apply H. left. reflexivity.
  - apply IH. intros x Hx. apply H. right. exact Hx.
Qed.

Lemma fold_improve_first (l : list X) : forall st,
  (exists x, In x l /\ snd st < sc x) ->
  exists pre x post, l = pre ++ x :: post /\ snd st < sc x /\
    (forall y, In y pre -> sc y < sc x) /\ (forall y, In y post -> sc y <= sc x) /\
    fold_left improve l st = (Some (mk x), sc x).
Proof.
  induction l as [|a l IH]; intros st [x [Hin Hlt]]; [destruct Hin|].
  simpl. unfold improve at 2.
  destruct (Qlt_bool (snd st) (sc a)) eqn:E.
  - apply Qlt_bool_iff in E.
    destruct (existsb (fun y => Qlt_bool (sc a) (sc y)) l) eqn:E2.
    + apply existsb_exists in E2. destruct E2 as [y [Hy Hy']].
      apply Qlt_bool_iff in Hy'.
      destruct (IH (Some (mk a), sc a)) as (pre & z & post & Heq & Hz & Hpre & Hpost & Hfold).
      { exists y. split; [exact Hy|exact Hy']. }
      simpl in Hz. exists (a :: pre), z, post.
      split; [simpl; rewrite Heq; reflexivity|].
      split; [apply (Qlt_trans _ _ _ E Hz)|].
      split; [intros w [<-|Hw]; [exact Hz|apply Hpre; exact Hw]|].
      split; [exact Hpost|exact Hfold].
    + exists [], a, l. split; [reflexivity|]. split; [exact E|].
      split; [intros y []|].
      assert (Hall : forall y, In y l -> sc y <= sc a).
      { intros y Hy. destruct (Qlt_bool (sc a) (sc y)) eqn:E3.
        - exfalso. assert (Hex : existsb (fun y => Qlt_bool (sc a) (sc y)) l = true).
          { apply existsb_exists. exists y. split; [exact Hy|exact E3]. }
          congruence.
        - apply Qlt_bool_false in E3. exact E3. }
      split; [exact Hall|]. apply fold_improve_none. exact Hall.
  - apply Qlt_bool_false in E.
    destruct Hin as [<-|Hin]; [exfalso; apply (Qlt_not_le _ _ Hlt E)|].
    destruct (IH st) as (pre & z & post & Heq & Hz & Hpre & Hpost & Hfold).
    { exists x. split; [exact Hin|exact Hlt]. }
    exists (a :: pre), z, post.
    split; [simpl; rewrite Heq; reflexivity|]. split; [exact Hz|].
    split; [intros w [<-|Hw]; [apply (Qle_lt_trans _ _ _ E Hz)|apply Hpre; exact Hw]|].
    split; [exact Hpost|exact Hfold].
Qed.

End FirstMax.

(** Lexicographic order on (period, shift). *)
Definition lex_ltb (x y : Z * Q) : bool :=
  Z.ltb (fst x) (fst y) || (Z.eqb (fst x) (fst y) && Qlt_bool (snd x) (snd y)).

Fixpoint strictly_sorted_b (l : list (Z * Q)) : bool :=
  match l with
  | [] => true
  | x :: r => forallb (lex_ltb x) r && strictly_sorted_b r
  end.

Lemma strictly_sorted_after (pre : list (Z * Q)) : forall x post,
  strictly_sorted_b (pre ++ x :: post) = true -> forall y, In y post -> lex_ltb x y = true.
Proof.
  induction pre as [|a pre IH]; intros x post H y Hy; simpl in H;
    apply andb_true_iff in H as [H1 H2].
  - rewrite forallb_forall in H1. apply H1. exact Hy.
  - apply (IH x post H2 y Hy).
Qed.

(** The candidates of a profile in the order of the nested loops. *)
Definition grid (c : Constraint) : list (Z * Q) :=
  flat_map (fun p => map (fun s => (p, s)) (shift_range c)) (ema_range c).

Lemma CONSTRAINTS_grids (k : string) (c : Constraint) :
  CONSTRAINTS !! k = Some c -> strictly_sorted_b (grid c) = true /\ grid c <> [].
Proof.
  intros H. apply elem_of_list_to_map_2, list_elem_of_In in H.
  repeat (destruct H as [H|H];
          [injection H as <- <-; split; [vm_compute; reflexivity | intros He; vm_compute in He; discriminate]|]).
  destruct H.
Qed.

Lemma init_constraints (ticker : string) (cs hs ls : series) (o : Optimizer) :
  init ticker cs hs ls = Some o -> exists k, CONSTRAINTS !! k = Some (o_constraints o).
Proof.
  unfold init. intros H.
  destruct (CONSTRAINTS !! "large_cap") as [fc|] eqn:Ef; [|discriminate].
  destruct (detect_trend_change cs hs ls) as [[ts info]|]; [|discriminate].
  apply (f_equal (option_map o_constraints)) in H.
  destruct (CONSTRAINTS !! default "large_cap" (ASSET_CLASSES !! ticker)) as [c|] eqn:Ec;
    cbn [option_map o_constraints default] in H; injection H as <-.
  - eexists. exact Ec.
  - exists "large_cap". exact Ef.
Qed.

(** The evaluation window of [optimize] and the counts and score of a
    candidate (period, shift) on it. *)
Definition window (o : Optimizer) : list Q := mask_select (opt_mask_of o) (values (o_close o)).
Definition window_low (o : Optimizer) : list Q := mask_select (opt_mask_of o) (values (o_low o)).

Definition cand_counts (o : Optimizer) (x : Z * Q) : nat * nat :=
  evaluate_weeks (fbis_line_of (mask_select (opt_mask_of o) (_calculate_ema o (fst x))) (snd x))
                 (window_low o) (window o) (0%nat, 0%nat).

Definition cand_score (o : Optimizer) (x : Z * Q) : Q :=
  score_of (fst (cand_counts o x)) (snd (cand_counts o x)).

Definition cand_result (o : Optimizer) (x : Z * Q) : OptResult :=
  {| r_period := fst x; r_shift := snd x; r_tests := fst (cand_counts o x);
     r_breaches := snd (cand_counts o x); r_score := cand_score o x;
     r_trend_start := o_trend_start o; r_asset_class := Some (o_asset_class o) |}.

Lemma fold_left_over_map {A B C} (f : A -> C -> A) (g : B -> C) (l : list B) : forall a,
  fold_left f (map g l) a = fold_left (fun acc x => f acc (g x)) l a.
Proof. induction l as [|x l IH]; intros a; simpl; [reflexivity | apply IH]. Qed.

Lemma fold_left_ext_steps {A B} (f g : A -> B -> A) (l : list B) :
  (forall a x, f a x = g a x) -> forall a, fold_left f l a = fold_left g l a.
Proof. intros H. induction l as [|x l IH]; intros a; simpl; [reflexivity|]. rewrite H. apply IH. Qed.

Lemma period_loop_improve (o : Optimizer) (ps : list Z) : forall st,
  fold_left (period_step o (opt_mask_of o) (window_low o) (window o)) ps st =
  fold_left (improve (cand_score o) (cand_result o))
            (flat_map (fun p => map (fun s => (p, s)) (shift_range (o_constraints o))) ps) st.
Proof.
  induction ps as [|p ps IH]; intros st; simpl; [reflexivity|].
  rewrite fold_left_app, fold_left_over_map, <- IH. f_equal.
  unfold period_step. apply fold_left_ext_steps. intros [best bs] s.
  unfold shift_step, improve, cand_result, cand_score, cand_counts. simpl.
  destruct (evaluate_weeks _ _ _ _) as [t b]. reflexivity.
Qed.

Lemma score_of_above_sentinel (t b n : nat) :
  (b <= n)%nat -> (3 * Z.of_nat n < 999999)%Z -> -999999 < score_of t b.
Proof.
  intros Hb Hn.
  assert (E : score_of t b == inject_Z (Z.of_nat t - 3 * Z.of_nat b)).
  { unfold score_of, SUPPORT_TEST_REWARD, BREACH_PENALTY, Z.sub.
    rewrite inject_Z_plus, inject_Z_opp, inject_Z_mult. ring. }
  rewrite E. change (-999999) with (inject_Z (-999999)). rewrite <- Zlt_Qlt. lia.
Qed.

Lemma bool_mask_values (m : list bool) (s : series) :
  length m = length s -> bool_mask m (values s) = Some (mask_select m (values s)).
Proof.
  intros H. unfold bool_mask, values. rewrite length_map, H, Nat.eqb_refl. reflexivity.
Qed.

Lemma length_opt_mask (o : Optimizer) : length (opt_mask_of o) = length (o_close o).
Proof. unfold opt_mask_of. apply length_map. Qed.

(** C2: when the window has at least 10 bars (and fewer than 333333, so
    that every score beats the [-999999] sentinel), [optimize] returns the
    result of a grid candidate with maximal score, and every other
    candidate with the same score comes after it in (period, shift)
    lexicographic order: on ties the first candidate of the ascending
    nested loops wins. *)
Theorem optimize_first_best_wins (ticker : string) (cs hs ls : series) (o : Optimizer)
    (r : OptResult) :
  init ticker cs hs ls = Some o -> optimize o = Some r ->
  (10 <= length (window o))%nat -> (3 * Z.of_nat (length (window o)) < 999999)%Z ->
  r = cand_result o (r_period r, r_shift r) /\
  In (r_period r, r_shift r) (grid (o_constraints o)) /\
  (forall x, In x (grid (o_constraints o)) -> cand_score o x <= r_score r) /\
  (forall x, In x (grid (o_constraints o)) -> cand_score o x == r_score r ->
     x = (r_period r, r_shift r) \/ lex_ltb (r_period r, r_shift r) x = true).
Proof.
  intros Hinit Hopt H10 Hbig.
  destruct (init_constraints _ _ _ _ _ Hinit) as [k Hk].
  destruct (CONSTRAINTS_grids _ _ Hk) as [Hsorted Hne].
  unfold optimize in Hopt. rewrite (bool_mask_values _ _ (length_opt_mask o)) in Hopt.
  destruct (bool_mask (opt_mask_of o) (values (o_low o))) as [lw|] eqn:El; [|discriminate].
  assert (Elw : lw = window_low o).
  { unfold bool_mask in El. destruct (Nat.eqb _ _); [|discriminate].
    injection El as <-. reflexivity. }
  subst lw. change (mask_select (opt_mask_of o) (values (o_close o))) with (window o) in Hopt.
  assert (Hlt : Nat.ltb (length (window o)) 10 = false) by (apply Nat.ltb_ge; lia).
  rewrite Hlt, period_loop_improve in Hopt.
  change (flat_map (fun p => map (fun s => (p, s)) (shift_range (o_constraints o)))
                   (ema_range (o_constraints o))) with (grid (o_constraints o)) in Hopt.
  assert (Hlow : forall x, -999999 < cand_score o x).
  { intros x. unfold cand_score. apply (score_of_above_sentinel _ _ (length (window o))); [|exact Hbig].
    unfold cand_counts. apply (evaluate_weeks_breaches _ _ _ 0 0). }
  destruct (fold_improve_first (cand_score o) (cand_result o) (grid (o_constraints o)) (None, -999999))
    as (pre & x & post & Heq & _ & Hpre & Hpost & Hfold).
  { destruct (grid (o_constraints o)) as [|x0 rest]; [congruence|].
    exists x0. split; [left; reflexivity|apply Hlow]. }
  rewrite Hfold in Hopt. injection Hopt as <-.
  destruct x as [p s]. cbn [r_period r_shift r_score cand_result fst snd].
  split; [reflexivity|].
  split; [rewrite Heq; apply in_or_app; right; left; reflexivity|].
  rewrite Heq in Hsorted |- *.
  split.
  - intros y Hy. apply in_app_or in Hy as [Hy|[<-|Hy]].
    + apply Qlt_le_weak, Hpre, Hy.
    + apply Qle_refl.
    + apply Hpost, Hy.
  - intros y Hy Hq. apply in_app_or in Hy as [Hy|[<-|Hy]].
    + exfalso. apply (Qlt_not_eq _ _ (Hpre y Hy)). exact Hq.
    + left. reflexivity.
    + right. apply (strictly_sorted_after pre (p, s) post Hsorted y Hy).
Qed.

Lemma optimize_first_best_wins_witness :
  exists o r,
    init "SPY" sample_close sample_high sample_low = Some o /\ optimize o = Some r /\
    (10 <= length (window o))%nat /\ (3 * Z.of_nat (length (window o)) < 999999)%Z /\
    (r = cand_result o (r_period r, r_shift r) /\
     In (r_period r, r_shift r) (grid (o_constraints o)) /\
     (forall x, In x (grid (o_constraints o)) -> cand_score o x <= r_score r) /\
     (forall x, In x (grid (o_constraints o)) -> cand_score o x == r_score r ->
        x = (r_period r, r_shift r) \/ lex_ltb (r_period r, r_shift r) x = true)).
Proof.
  destruct (init "SPY" sample_close sample_high sample_low) as [o|] eqn:Ei;
    [|vm_compute in Ei; discriminate].
  pose proof Ei as Ei'. vm_compute in Ei'. injection Ei' as Eo. subst o.
  match type of Ei with _ = Some ?oc =>
    destruct (optimize oc) as [r|] eqn:Er; [|vm_compute in Er; discriminate];
    exists oc, r; split; [exact Ei|]; split; [exact Er|];
    assert (Hw : (10 <= length (window oc))%nat) by (vm_compute; lia);
    assert (Hb : (3 * Z.of_nat (length (window oc)) < 999999)%Z) by (vm_compute; reflexivity);
    split; [exact Hw|]; split; [exact Hb|];
    exact (optimize_first_best_wins "SPY" sample_close sample_high sample_low oc r Ei Er Hw Hb)
  end.
Defined.

(** ** Fixed defaults on insufficient data (claim C3) *)

(** C3: (1) in the batch runner, an instrument whose close column has
    fewer than 52 non-NaN bars gets the default (period 20, shift -0.05)
    and the loop goes on with the next instrument; (2) [optimize] returns
    the fixed default result when the evaluation window has fewer than 10
    bars (for a low series aligned with the close series, as
    [self.low[opt_mask]] requires). *)
Theorem short_data_defaults :
  (forall (df : DataFrame) (params : gmap string (Z * Q)) (ticker : string)
          (rest : list string) (cc hc lc : column),
     df !! (ticker +:+ "_close") = Some cc -> df !! (ticker +:+ "_high") = Some hc ->
     df !! (ticker +:+ "_low") = Some lc -> (length (dropna cc) < 52)%nat ->
     optimize_all_go df params (ticker :: rest) =
     optimize_all_go df (<[ticker := (20%Z, -5 # 100)]> params) rest) /\
  (forall o : Optimizer,
     length (o_low o) = length (o_close o) -> (length (window o) < 10)%nat ->
     optimize o = Some {| r_period := 20; r_shift := -5 # 100; r_tests := 0; r_breaches := 0;
                          r_score := 0; r_trend_start := o_trend_start o; r_asset_class := None |}).
Proof.
  split.
  - intros df params ticker rest cc hc lc Hc Hh Hl Hshort.
    cbn [optimize_all_go]. unfold optimize_one. rewrite Hc, Hh, Hl.
    apply Nat.ltb_lt in Hshort. rewrite Hshort. reflexivity.
  - intros o Hlen Hwin. unfold optimize.
    rewrite (bool_mask_values _ _ (length_opt_mask o)).
    rewrite (bool_mask_values (opt_mask_of o) (o_low o)) by (rewrite length_opt_mask; lia).
    change (mask_select (opt_mask_of o) (values (o_close o))) with (window o).
    apply Nat.ltb_lt in Hwin. rewrite Hwin. reflexivity.
Qed.

Definition sample_df : DataFrame :=
  let col : column := map (fun '(d, v) => (d, Some v)) sample_rising in
  list_to_map [("AAA_close", col); ("AAA_high", col); ("AAA_low", col)].

Definition sample_optimizer : Optimizer :=
  {| o_ticker := "AAA"; o_close := sample_rising; o_high := sample_rising; o_low := sample_rising;
     o_asset_class := "large_cap"; o_constraints := large_cap_constraint; o_trend_start := 77%Z;
     o_detection_info := NoInfo |}.

Lemma short_data_defaults_witness :
  optimize_all_go sample_df ∅ ["AAA"] = optimize_all_go sample_df (<["AAA" := (20%Z, -5 # 100)]> ∅) [] /\
  optimize sample_optimizer =
    Some {| r_period := 20; r_shift := -5 # 100; r_tests := 0; r_breaches := 0;
            r_score := 0; r_trend_start := 77%Z; r_asset_class := None |}.
Proof.
  destruct short_data_defaults as [H1 H2]. split.
  - apply (H1 sample_df ∅ "AAA" [] (map (fun '(d, v) => (d, Some v)) sample_rising)
             (map (fun '(d, v) => (d, Some v)) sample_rising)
             (map (fun '(d, v) => (d, Some v)) sample_rising));
      [vm_compute; reflexivity | vm_compute; reflexivity | vm_compute; reflexivity | vm_compute; lia].
  - apply (H2 sample_optimizer); vm_compute; [reflexivity | lia].
Defined.

(** ** Support line on the window (claim C7) *)

(** EMA of span [span] at bar [i], computed by the recurrence from the
    first bar of the whole series up to bar [i]. *)
Definition ema_at (span : Z) (xs : list Q) (i : nat) : Q :=
  match py_last (ewm_mean span (firstn (S i) xs)) with Some y => y | None => 0 end.

(** Positions of the bars at or after the trend start. *)
Definition window_indices (o : Optimizer) : list nat :=
  List.filter (fun i => nth i (opt_mask_of o) false) (seq 0 (length (opt_mask_of o))).

Lemma ewm_go_firstn (xs : list Q) : forall alpha prev n,
  ewm_go alpha prev (firstn n xs) = firstn n (ewm_go alpha prev xs).
Proof.
  induction xs as [|x xs IH]; intros alpha prev n; destruct n; simpl; try reflexivity.
  f_equal. apply IH.
Qed.

Lemma ewm_mean_firstn (span : Z) (xs : list Q) (n : nat) :
  ewm_mean span (firstn n xs) = firstn n (ewm_mean span xs).
Proof.
  unfold ewm_mean. destruct xs as [|x xs]; destruct n; simpl; try reflexivity.
  f_equal. apply ewm_go_firstn.
Qed.

Lemma length_ewm_go (xs : list Q) : forall alpha prev, length (ewm_go alpha prev xs) = length xs.
Proof. induction xs as [|x xs IH]; intros; simpl; [reflexivity|]. f_equal. apply IH. Qed.

Lemma length_ewm_mean (span : Z) (xs : list Q) : length (ewm_mean span xs) = length xs.
Proof. unfold ewm_mean. destruct xs; simpl; [reflexivity|]. f_equal. apply length_ewm_go. Qed.

Lemma py_last_firstn {A} (l : list A) : forall i,
  (i < length l)%nat -> py_last (firstn (S i) l) = nth_error l i.
Proof.
  induction l as [|a l IH]; intros i H; simpl in H; [lia|].
  destruct i as [|i]; [reflexivity|].
  destruct l as [|b l]; simpl in H; [lia|].
  change (py_last (a :: firstn (S i) (b :: l)) = nth_error (b :: l) i).
  rewrite <- IH by (simpl; lia). reflexivity.
Qed.

Lemma ema_at_nth (span : Z) (xs : list Q) (i : nat) :
  (i < length xs)%nat -> ema_at span xs i = nth i (ewm_mean span xs) 0.
Proof.
  intros H. unfold ema_at. rewrite ewm_mean_firstn, py_last_firstn by (rewrite length_ewm_mean; exact H).
  rewrite (nth_error_nth' _ 0) by (rewrite length_ewm_mean; exact H). reflexivity.
Qed.

Lemma filter_map_S (p : nat -> bool) (l : list nat) :
  List.filter p (map S l) = map S (List.filter (fun i => p (S i)) l).
Proof.
  induction l as [|x l IH]; simpl; [reflexivity|].
  destruct (p (S x)); simpl; rewrite IH; reflexivity.
Qed.

Lemma mask_select_indices {A} (m : list bool) : forall (l : list A) (d : A),
  length m = length l ->
  mask_select m l = map (fun i => nth i l d) (List.filter (fun i => nth i m false) (seq 0 (length m))).
Proof.
  induction m as [|b m IH]; intros l d H; destruct l as [|y l]; simpl in H; try discriminate;
    [reflexivity|].
  injection H as H.
  change (seq 0 (length (b :: m))) with (0%nat :: seq 1 (length m)).
  rewrite <- seq_shift. cbn [List.filter]. rewrite filter_map_S.
  cbn [nth]. destruct b; cbn [map]; rewrite map_map; cbn [nth];
    rewrite <- (IH l d H); reflexivity.
Qed.

(** A series whose trend starts at its third bar (day 14). *)
Definition restart_optimizer : Optimizer :=
  {| o_ticker := "AAA"; o_close := weekly [10; 20; 30; 40]%Z; o_high := weekly [10; 20; 30; 40]%Z;
     o_low := weekly [10; 20; 30; 40]%Z; o_asset_class := "large_cap";
     o_constraints := large_cap_constraint; o_trend_start := 14%Z; o_detection_info := NoInfo |}.

(** C7: for every period, the EMA values the shift loop of [optimize]
    scales by [1 + shift] are, bar by bar over the window, the EMA of the
    recurrence run from the first bar of the WHOLE close series up to that
    bar.  On [restart_optimizer] (closes 10, 20, 30, 40, window from the
    third bar, span 2) the value at the first window bar is not the one
    an EMA restarted at the window would give. *)
Theorem period_step_full_series_ema :
  (forall (o : Optimizer) (opt_low opt_close : list Q) (st : option OptResult * Q) (period : Z),
     period_step o (opt_mask_of o) opt_low opt_close st period =
     fold_left (shift_step o opt_low opt_close
                  (map (fun i => ema_at period (values (o_close o)) i) (window_indices o)) period)
               (shift_range (o_constraints o)) st) /\
  Qeq_bool (hd 0 (map (fun i => ema_at 2 (values (o_close restart_optimizer)) i)
                      (window_indices restart_optimizer)))
           (hd 0 (ewm_mean 2 (window restart_optimizer))) = false.
Proof.
  split; [|vm_compute; reflexivity].
  intros o opt_low opt_close st period. unfold period_step, _calculate_ema.
  rewrite (mask_select_indices (opt_mask_of o) _ 0)
    by (rewrite length_ewm_mean, length_opt_mask; unfold values; rewrite length_map; reflexivity).
  f_equal. f_equal. unfold window_indices. apply map_ext_in. intros i Hi.
  apply filter_In in Hi as [Hi _]. apply in_seq in Hi.
  rewrite length_opt_mask in Hi. symmetry. apply ema_at_nth.
  unfold values. rewrite length_map. lia.
Qed.

(** ** Further properties: swing points *)


Lemma fold_left_Qmax_ge (r : list Q) : forall a,
  a <= fold_left Qmax r a /\ forall x, In x r -> x <= fold_left Qmax r a.
Proof.
  induction r as [|y r IH]; intros a; simpl.
  - split; [apply Qle_refl | intros x []].
  - destruct (IH (Qmax a y)) as [H1 H2]. split.
    + apply (Qle_trans _ _ _ (Q.le_max_l a y) H1).
    + intros x [<-|Hx]; [apply (Qle_trans _ _ _ (Q.le_max_r a y) H1) | apply H2, Hx].
Qed.

Lemma fold_left_Qmin_le (r : list Q) : forall a,
  fold_left Qmin r a <= a /\ forall x, In x r -> fold_left Qmin r a <= x.
Proof.
  induction r as [|y r IH]; intros a; simpl.
  - split; [apply Qle_refl | intros x []].
  - destruct (IH (Qmin a y)) as [H1 H2]. split.
    + apply (Qle_trans _ _ _ H1 (Q.le_min_l a y)).
    + intros x [<-|Hx]; [apply (Qle_trans _ _ _ H1 (Q.le_min_r a y)) | apply H2, Hx].
Qed.

Lemma series_max_ge (xs : list Q) (x : Q) : In x xs -> x <= series_max xs.
Proof.
  destruct xs as [|a r]; [intros []|]. intros Hx. simpl.
  destruct (fold_left_Qmax_ge r a) as [H1 H2].
  destruct Hx as [<-|Hx]; [exact H1 | apply H2, Hx].
Qed.

Lemma series_min_le (xs : list Q) (x : Q) : In x xs -> series_min xs <= x.
Proof.
  destruct xs as [|a r]; [intros []|]. intros Hx. simpl.
  destruct (fold_left_Qmin_le r a) as [H1 H2].
  destruct Hx as [<-|Hx]; [exact H1 | apply H2, Hx].
Qed.

(** The scan shared by [find_swing_highs] and [find_swing_lows]. *)
Definition swing_scan (agg : list Q -> Q) (s : series) (window : nat) : list SwingPoint :=
  flat_map (fun i =>
    match nth_error s i with
    | Some (d, v) =>
        let local_window := values (iloc_slice (i - window) (i + window + 1) s) in
        if Qeq_bool v (agg local_window) then [{| sp_date := d; sp_price := v |}] else []
    | None => []
    end)
    (seq window (length s - window - window)).

Lemma flat_map_at_most_one {A B} (f : A -> list B) (l : list A) :
  (forall x, (length (f x) <= 1)%nat) -> (length (flat_map f l) <= length l)%nat.
Proof.
  intros H. induction l as [|x l IH]; simpl; [lia|].
  rewrite length_app. specialize (H x). lia.
Qed.

Lemma swing_scan_spec (agg : list Q -> Q) (s : series) (window : nat) :
  (length (swing_scan agg s window) <= length s - window - window)%nat /\
  forall p, In p (swing_scan agg s window) ->
    exists i, (window <= i)%nat /\ (i + window < length s)%nat /\
      nth_error s i = Some (sp_date p, sp_price p) /\
      sp_price p == agg (values (iloc_slice (i - window) (i + window + 1) s)).
Proof.
  unfold swing_scan. split.
  - eapply Nat.le_trans; [apply flat_map_at_most_one | rewrite length_seq; apply Nat.le_refl].
    intros i.
    destruct (nth_error s i) as [[d v]|]; [destruct (Qeq_bool _ _)|]; simpl; lia.
  - intros p Hp. apply in_flat_map in Hp as [i [Hi Hp]]. apply in_seq in Hi.
    destruct (nth_error s i) as [[d v]|] eqn:E; [|destruct Hp].
    destruct (Qeq_bool v _) eqn:Eq; [|destruct Hp].
    destruct Hp as [<-|[]]. exists i. simpl.
    split; [lia|]. split; [lia|]. split; [exact E|]. apply Qeq_bool_iff, Eq.
Qed.

Lemma iloc_slice_nth (s : series) (a b j : nat) (x : date * Q) :
  (a <= j < b)%nat -> nth_error s j = Some x -> In x (iloc_slice a b s).
Proof.
  intros Hj E. unfold iloc_slice. apply (nth_error_In _ (j - a)).
  rewrite nth_error_firstn. destruct (Nat.ltb_spec (j - a) (b - a)); [|lia].
  rewrite nth_error_skipn. replace (a + (j - a))%nat with j by lia. exact E.
Qed.

(** [find_swing_highs] keeps at most one point per scanned bar, so a
    series of fewer than [2 * window + 1] bars has no swing high; every
    swing high is a bar of the series, at least [window] bars away from
    both ends, whose high is greater than or equal to every high within
    [window] bars on either side. *)
Theorem find_swing_highs_local_max (high_series : series) (window : nat) :
  (length (find_swing_highs high_series window) <= length high_series - window - window)%nat /\
  forall p, In p (find_swing_highs high_series window) ->
    exists i, (window <= i)%nat /\ (i + window < length high_series)%nat /\
      nth_error high_series i = Some (sp_date p, sp_price p) /\
      forall j d v, (i - window <= j <= i + window)%nat -> nth_error high_series j = Some (d, v) ->
        v <= sp_price p.
Proof.
  destruct (swing_scan_spec series_max high_series window) as [Hlen Hall].
  split; [exact Hlen|].
  intros p Hp. destruct (Hall p Hp) as (i & H1 & H2 & H3 & H4).
  exists i. split; [exact H1|]. split; [exact H2|]. split; [exact H3|].
  intros j d v Hj E. rewrite H4. apply series_max_ge.
  apply (in_map snd _ (d, v)). apply (iloc_slice_nth _ _ _ j); [lia | exact E].
Qed.

(** [find_swing_lows] is the mirror image: every swing low is a bar, at
    least [window] bars from both ends, whose low is less than or equal to
    every low within [window] bars on either side. *)
Theorem find_swing_lows_local_min (low_series : series) (window : nat) :
  (length (find_swing_lows low_series window) <= length low_series - window - window)%nat /\
  forall p, In p (find_swing_lows low_series window) ->
    exists i, (window <= i)%nat /\ (i + window < length low_series)%nat /\
      nth_error low_series i = Some (sp_date p, sp_price p) /\
      forall j d v, (i - window <= j <= i + window)%nat -> nth_error low_series j = Some (d, v) ->
        sp_price p <= v.
Proof.
  destruct (swing_scan_spec series_min low_series window) as [Hlen Hall].
  split; [exact Hlen|].
  intros p Hp. destruct (Hall p Hp) as (i & H1 & H2 & H3 & H4).
  exists i. split; [exact H1|]. split; [exact H2|]. split; [exact H3|].
  intros j d v Hj E. rewrite H4. apply series_min_le.
  apply (in_map snd _ (d, v)). apply (iloc_slice_nth _ _ _ j); [lia | exact E].
Qed.
(** ** Further properties: lower highs *)

(** The run the inner loop of [identify_lower_highs] builds from
    [swing_highs[start_idx]]. *)
Definition lower_run (swing_highs : list SwingPoint) (start_idx : nat) : list SwingPoint :=
  match nth_error swing_highs start_idx with
  | Some h => h :: extend_lower (sp_price h) (skipn (S start_idx) swing_highs)
  | None => []
  end.

(** Each price strictly below the one before it. *)
Fixpoint descending (l : list SwingPoint) : Prop :=
  match l with
  | a :: (b :: _) as r => sp_price b < sp_price a /\ descending r
  | _ => True
  end.

Lemma extend_lower_descending (rest : list SwingPoint) : forall h,
  descending (h :: extend_lower (sp_price h) rest).
Proof.
  induction rest as [|x rest IH]; intros h; simpl; [exact I|].
  destruct (Qlt_bool (sp_price x) (sp_price h)) eqn:E; simpl; [|exact I].
  split; [apply Qlt_bool_iff, E|]. apply IH.
Qed.

Lemma extend_lower_prefix (rest : list SwingPoint) : forall last,
  extend_lower last rest = firstn (length (extend_lower last rest)) rest.
Proof.
  induction rest as [|x rest IH]; intros last; simpl; [reflexivity|].
  destruct (Qlt_bool (sp_price x) last); simpl; [|reflexivity].
  f_equal. apply IH.
Qed.

Lemma length_extend_lower (rest : list SwingPoint) : forall last,
  (length (extend_lower last rest) <= length rest)%nat.
Proof.
  induction rest as [|x rest IH]; intros last; simpl; [lia|].
  destruct (Qlt_bool (sp_price x) last); simpl; [specialize (IH (sp_price x)); lia | lia].
Qed.

Lemma lower_run_prefix (sh : list SwingPoint) (k : nat) :
  lower_run sh k = firstn (length (lower_run sh k)) (skipn k sh) /\
  (length (lower_run sh k) <= length sh - k)%nat /\ descending (lower_run sh k).
Proof.
  unfold lower_run. destruct (nth_error sh k) as [h|] eqn:E.
  - assert (Hsk : skipn k sh = h :: skipn (S k) sh).
    { clear -E. revert sh E. induction k as [|k IH]; intros [|x sh] E; simpl in *;
        try discriminate; [injection E as ->; reflexivity | apply IH, E]. }
    rewrite Hsk. simpl. split; [f_equal; apply extend_lower_prefix|].
    split; [|apply extend_lower_descending].
    rewrite <- length_skipn, Hsk. simpl.
    pose proof (length_extend_lower (skipn (S k) sh) (sp_price h)). lia.
  - simpl. split; [reflexivity|]. split; [lia|exact I].
Qed.

Lemma max_by_len_spec (l : list (list SwingPoint)) : forall best,
  (length best <= length (max_by_len best l))%nat /\
  exists pre post, best :: l = pre ++ max_by_len best l :: post /\
    (forall s, In s pre -> (length s < length (max_by_len best l))%nat) /\
    (forall s, In s post -> (length s <= length (max_by_len best l))%nat).
Proof.
  induction l as [|s r IH]; intros best; simpl.
  - split; [lia|]. exists [], []. split; [reflexivity|]. split; intros x [].
  - destruct (Nat.ltb_spec (length best) (length s)) as [Hlt|Hge].
    + destruct (IH s) as [Hs (pre & post & Heq & Hpre & Hpost)].
      split; [lia|]. exists (best :: pre), post. split; [rewrite Heq; reflexivity|].
      split; [intros x [<-|Hx]; [lia | apply Hpre, Hx]|exact Hpost].
    + destruct (IH best) as [Hb (pre & post & Heq & Hpre & Hpost)].
      split; [exact Hb|].
      destruct pre as [|p0 pre].
      * injection Heq as Heq1 Heq2. exists [], (s :: post).
        split; [rewrite <- Heq1, Heq2; reflexivity|]. split; [intros x []|].
        intros x [<-|Hx]; [rewrite <- Heq1; lia | apply Hpost, Hx].
      * injection Heq as Heq1 Heq2. subst p0. exists (best :: s :: pre), post.
        split; [simpl; f_equal; f_equal; exact Heq2|]. split; [|exact Hpost].
        assert (Hbest : (length best < length (max_by_len best r))%nat) by (apply Hpre; left; reflexivity).
        intros x [<-|[<-|Hx]]; [exact Hbest | lia | apply Hpre; right; exact Hx].
Qed.

Lemma filter_seq_after (p : nat -> bool) (n : nat) : forall a pre k post,
  List.filter p (seq a n) = pre ++ k :: post -> forall j, In j post -> (k < j)%nat.
Proof.
  induction n as [|n IH]; intros a pre k post H j Hj; simpl in H.
  - destruct pre; discriminate.
  - destruct (p a) eqn:Ep.
    + destruct pre as [|x pre]; simpl in H; injection H as H1 H2.
      * subst k post. apply filter_In in Hj as [Hj _]. apply in_seq in Hj. lia.
      * apply (IH (S a) pre k post H2 j Hj).
    + apply (IH (S a) pre k post H j Hj).
Qed.

Lemma flat_map_filter_singleton {A B} (f : A -> list B) (g : A -> B) (p : A -> bool) (l : list A) :
  (forall k, In k l -> f k = if p k then [g k] else []) ->
  flat_map f l = map g (List.filter p l).
Proof.
  induction l as [|k l IH]; intros H; [reflexivity|].
  cbn [flat_map List.filter]. rewrite (H k (or_introl eq_refl)).
  rewrite IH by (intros k' Hk'; apply H; right; exact Hk').
  destruct (p k); reflexivity.
Qed.

(** [identify_lower_highs] returns the longest run of consecutive swing
    highs with strictly falling prices that starts at one of the first
    [len - 1] swing highs and has at least [min_highs] elements, the run
    with the earliest start among the longest; it returns the empty list
    exactly when there is no such run. *)
Theorem identify_lower_highs_longest_run (swing_highs : list SwingPoint) (min_highs : nat) :
  let r := identify_lower_highs swing_highs min_highs in
  (r = [] /\ forall k, (k < length swing_highs - 1)%nat ->
     (length (lower_run swing_highs k) < min_highs)%nat) \/
  (exists k, (k < length swing_highs - 1)%nat /\ r = lower_run swing_highs k /\
     (min_highs <= length r)%nat /\ r = firstn (length r) (skipn k swing_highs) /\ descending r /\
     (forall k', (k' < length swing_highs - 1)%nat ->
        (min_highs <= length (lower_run swing_highs k'))%nat ->
        (length (lower_run swing_highs k') <= length r)%nat) /\
     (forall k', (k' < k)%nat -> (min_highs <= length (lower_run swing_highs k'))%nat ->
        (length (lower_run swing_highs k') < length r)%nat)).
Proof.
  intros r. unfold r, identify_lower_highs.
  destruct (Nat.ltb_spec (length swing_highs) min_highs) as [Hshort|Hlong].
  - left. split; [reflexivity|]. intros k Hk.
    destruct (lower_run_prefix swing_highs k) as (_ & Hl & _). lia.
  - rewrite (flat_map_filter_singleton _ (lower_run swing_highs)
               (fun k => Nat.leb min_highs (length (lower_run swing_highs k)))).
    2:{ intros k Hk. apply in_seq in Hk. unfold lower_run.
        destruct (nth_error swing_highs k) as [h|] eqn:E; [reflexivity|].
        apply nth_error_None in E. lia. }
    set (ks := List.filter (fun k => Nat.leb min_highs (length (lower_run swing_highs k)))
                           (seq 0 (length swing_highs - 1))).
    assert (Hks : forall k, In k ks <-> (k < length swing_highs - 1)%nat /\
                                       (min_highs <= length (lower_run swing_highs k))%nat).
    { intros k. unfold ks. rewrite filter_In, in_seq, Nat.leb_le. lia. }
    destruct ks as [|k0 krest] eqn:Eks.
    + left. split; [reflexivity|]. intros k Hk.
      destruct (Nat.ltb_spec (length (lower_run swing_highs k)) min_highs) as [Hlt|Hge]; [exact Hlt|].
      exfalso. apply (proj2 (Hks k)). split; assumption.
    + right. simpl map.
      destruct (max_by_len_spec (map (lower_run swing_highs) krest) (lower_run swing_highs k0))
        as [_ (pre & post & Heq & Hpre & Hpost)].
      set (res := max_by_len (lower_run swing_highs k0) (map (lower_run swing_highs) krest)) in *.
      change (lower_run swing_highs k0 :: map (lower_run swing_highs) krest)
        with (map (lower_run swing_highs) (k0 :: krest)) in Heq.
      apply map_eq_app in Heq as (kpre & kr & Ek & Epre & Ekr).
      apply map_eq_cons in Ekr as (k & kpost & Ekr & Ek' & Epost).
      subst kr. pose proof Ek as Ek2. rewrite <- Eks in Ek2. unfold ks in Ek2.
      assert (Hk : In k (k0 :: krest)) by (rewrite Ek; apply in_or_app; right; left; reflexivity).
      apply Hks in Hk as [Hk1 Hk2].
      destruct (lower_run_prefix swing_highs k) as (Hp1 & _ & Hp3).
      exists k. rewrite <- Ek'. rewrite <- Ek' in Hpre, Hpost.
      split; [exact Hk1|]. split; [reflexivity|]. split; [exact Hk2|].
      split; [exact Hp1|]. split; [exact Hp3|].
      assert (Hall : forall k', In k' (k0 :: krest) -> k' = k \/ In k' kpre \/ In k' kpost).
      { intros k' Hk'. rewrite Ek in Hk'. apply in_app_or in Hk' as [H|[H|H]]; auto. }
      split.
      * intros k' Hk' Hm. assert (Hin : In k' (k0 :: krest)) by (apply Hks; split; assumption).
        destruct (Hall k' Hin) as [->|[H|H]]; [lia| |].
        -- apply Nat.lt_le_incl, Hpre. rewrite <- Epre. apply in_map, H.
        -- apply Hpost. rewrite <- Epost. apply in_map, H.
      * intros k' Hlt Hm.
        assert (Hin : In k' (k0 :: krest)) by (apply Hks; split; [lia | assumption]).
        destruct (Hall k' Hin) as [->|[H|H]]; [lia| |].
        -- apply Hpre. rewrite <- Epre. apply in_map, H.
        -- exfalso. pose proof (filter_seq_after _ _ _ _ _ _ Ek2 k' H). lia.
Qed.
(** ** Further properties: breakout and confirmation *)

Lemma Qmin_choice (a b : Q) : Qmin a b = a \/ Qmin a b = b.
Proof. unfold Qmin, GenericMinMax.gmin. destruct (a ?= b); auto. Qed.

Lemma fold_left_Qmin_in (r : list Q) : forall a, In (fold_left Qmin r a) (a :: r).
Proof.
  induction r as [|y r IH]; intros a; simpl; [left; reflexivity|].
  destruct (IH (Qmin a y)) as [E|E]; [|right; right; exact E].
  rewrite <- E. destruct (Qmin_choice a y) as [-> | ->]; [left|right; left]; reflexivity.
Qed.

Lemma series_min_in (xs : list Q) : xs <> [] -> In (series_min xs) xs.
Proof. destruct xs as [|a r]; [congruence|]. intros _. apply fold_left_Qmin_in. Qed.

Lemma first_above_spec (line : DowntrendLine) (l : series) :
  match first_above line l with
  | Some b => exists pre post, l = pre ++ (b_date b, b_price b) :: post /\
      resistance_at_date line (b_date b) < b_price b /\
      (forall d v, In (d, v) pre -> v <= resistance_at_date line d)
  | None => forall d v, In (d, v) l -> v <= resistance_at_date line d
  end.
Proof.
  induction l as [|[d v] l IH]; simpl; [intros d v []|].
  destruct (Qlt_bool (resistance_at_date line d) v) eqn:E.
  - exists [], l. simpl. split; [reflexivity|]. split; [apply Qlt_bool_iff, E | intros d' v' []].
  - apply Qlt_bool_false in E. destruct (first_above line l) as [b|].
    + destruct IH as (pre & post & Heq & Hlt & Hpre). exists ((d, v) :: pre), post.
      split; [rewrite Heq; reflexivity|]. split; [exact Hlt|].
      intros d' v' [Hdv|Hdv]; [injection Hdv as <- <-; exact E | apply Hpre, Hdv].
    + intros d' v' [Hdv|Hdv]; [injection Hdv as <- <-; exact E | apply IH, Hdv].
Qed.

Lemma detect_breakout_spec (close_series : series) (downtrend_line : option DowntrendLine)
    (start_after_date : date) :
  match detect_breakout close_series downtrend_line start_after_date with
  | Some b => exists line pre post, downtrend_line = Some line /\
      List.filter (fun '(d, _) => Z.ltb start_after_date d) close_series =
        pre ++ (b_date b, b_price b) :: post /\
      In (b_date b, b_price b) close_series /\ (start_after_date < b_date b)%Z /\
      resistance_at_date line (b_date b) < b_price b /\
      (forall d v, In (d, v) pre -> v <= resistance_at_date line d)
  | None => forall line, downtrend_line = Some line -> forall d v, In (d, v) close_series ->
      (start_after_date < d)%Z -> v <= resistance_at_date line d
  end.
Proof.
  unfold detect_breakout. destruct downtrend_line as [line|]; [|intros line; discriminate].
  set (check_data := List.filter (fun '(d, _) => Z.ltb start_after_date d) close_series).
  pose proof (first_above_spec line check_data) as H.
  destruct (first_above line check_data) as [b|].
  - destruct H as (pre & post & Heq & Hlt & Hpre).
    assert (Hin : In (b_date b, b_price b) check_data) by (rewrite Heq; apply in_or_app; right; left; reflexivity).
    unfold check_data in Hin. apply filter_In in Hin as [Hin Hd]. apply Z.ltb_lt in Hd.
    exists line, pre, post. split; [reflexivity|]. split; [exact Heq|].
    split; [exact Hin|]. split; [exact Hd|]. split; [exact Hlt | exact Hpre].
  - intros line' E d v Hin Hd. injection E as <-. apply H.
    unfold check_data. apply filter_In. split; [exact Hin | apply Z.ltb_lt, Hd].
Qed.

(** [detect_breakout] returns the first close after [start_after_date],
    in the order of the series, that is strictly above the resistance
    line, and nothing when there is no line or when every close after that
    date is at or below the line. *)
Theorem detect_breakout_first_above (close_series : series) (downtrend_line : option DowntrendLine)
    (start_after_date : date) :
  match detect_breakout close_series downtrend_line start_after_date with
  | Some b => exists line pre post, downtrend_line = Some line /\
      List.filter (fun '(d, _) => Z.ltb start_after_date d) close_series =
        pre ++ (b_date b, b_price b) :: post /\
      In (b_date b, b_price b) close_series /\ (start_after_date < b_date b)%Z /\
      resistance_at_date line (b_date b) < b_price b /\
      (forall d v, In (d, v) pre -> v <= resistance_at_date line d)
  | None => forall line, downtrend_line = Some line -> forall d v, In (d, v) close_series ->
      (start_after_date < d)%Z -> v <= resistance_at_date line d
  end.
Proof. exact (detect_breakout_spec close_series downtrend_line start_after_date). Qed.

Lemma confirm_higher_low_props (low_series : series) (breakout_info : option Breakout)
    (pre_breakout_low : SwingPoint) (weeks_to_wait : Z) :
  match confirm_higher_low low_series breakout_info pre_breakout_low weeks_to_wait with
  | Some c => exists b v, breakout_info = Some b /\ c_confirmed c = true /\
      In (c_date c, v) low_series /\
      (b_date b < c_date c <= b_date b + 7 * weeks_to_wait)%Z /\ sp_price pre_breakout_low < v /\
      (forall d v', In (d, v') low_series -> (b_date b < d <= b_date b + 7 * weeks_to_wait)%Z ->
         v <= v' /\ sp_price pre_breakout_low < v')
  | None => forall b, breakout_info = Some b ->
      (forall d v, In (d, v) low_series -> ~ (b_date b < d <= b_date b + 7 * weeks_to_wait)%Z) \/
      (exists d v, In (d, v) low_series /\ (b_date b < d <= b_date b + 7 * weeks_to_wait)%Z /\
         v <= sp_price pre_breakout_low)
  end.
Proof.
  unfold confirm_higher_low. destruct breakout_info as [b|]; [|intros b; discriminate].
  set (win := List.filter (fun '(d, _) => Z.ltb (b_date b) d && Z.leb d (b_date b + 7 * weeks_to_wait))
                          low_series).
  assert (Hwin : forall d v, In (d, v) win <->
            In (d, v) low_series /\ (b_date b < d <= b_date b + 7 * weeks_to_wait)%Z).
  { intros d v. unfold win. rewrite filter_In, andb_true_iff, Z.ltb_lt, Z.leb_le. reflexivity. }
  destruct win as [|p0 rest] eqn:Ew.
  - intros b' E. injection E as <-. left. intros d v Hin Hd.
    assert (H : In (d, v) (@nil (date * Q))) by (apply Hwin; split; assumption). destruct H.
  - set (pullback_low_price := series_min (values (p0 :: rest))).
    assert (Hmin : forall d v, In (d, v) (p0 :: rest) -> pullback_low_price <= v).
    { intros d v H. apply series_min_le. apply (in_map snd _ (d, v)), H. }
    destruct (Qlt_bool (sp_price pre_breakout_low) pullback_low_price) eqn:E.
    + apply Qlt_bool_iff in E. unfold idxmin.
      destruct (idxmin_go_spec rest p0) as (Hin & Hle & Hall).
      destruct (idxmin_go p0 rest) as [d v] eqn:Ei. cbn [fst snd] in *.
      assert (Hin' : In (d, v) (p0 :: rest)) by exact Hin.
      apply Hwin in Hin as [Hin Hd].
      exists b, v. cbn [c_date c_confirmed].
      split; [reflexivity|]. split; [reflexivity|]. split; [exact Hin|]. split; [exact Hd|].
      split; [apply (Qlt_le_trans _ _ _ E), (Hmin d v Hin')|].
      intros d' v' Hin2 Hd2. assert (Hw : In (d', v') (p0 :: rest)) by (apply Hwin; split; assumption).
      split; [destruct Hw as [Hw|Hw]; [rewrite Hw in Hle; exact Hle | apply (Hall _ Hw)] |].
      apply (Qlt_le_trans _ _ _ E), (Hmin d' v' Hw).
    + apply Qlt_bool_false in E. intros b' Eb. injection Eb as <-. right.
      assert (Hm : In pullback_low_price (values (p0 :: rest))) by (apply series_min_in; discriminate).
      apply in_map_iff in Hm as [[d v] [Hv Hdv]]. cbn [snd] in Hv.
      apply Hwin in Hdv as [Hdv Hd]. exists d, v. split; [exact Hdv|]. split; [exact Hd|].
      rewrite Hv. exact E.
Qed.

(** [confirm_higher_low] confirms a breakout exactly when the lows of the
    [weeks_to_wait] weeks after the breakout date are not all absent and
    are all strictly above the pre-breakout swing low; the confirmation date
    is then the date of the lowest of those lows. *)
Theorem confirm_higher_low_spec (low_series : series) (breakout_info : option Breakout)
    (pre_breakout_low : SwingPoint) (weeks_to_wait : Z) :
  match confirm_higher_low low_series breakout_info pre_breakout_low weeks_to_wait with
  | Some c => exists b v, breakout_info = Some b /\ c_confirmed c = true /\
      In (c_date c, v) low_series /\
      (b_date b < c_date c <= b_date b + 7 * weeks_to_wait)%Z /\ sp_price pre_breakout_low < v /\
      (forall d v', In (d, v') low_series -> (b_date b < d <= b_date b + 7 * weeks_to_wait)%Z ->
         v <= v' /\ sp_price pre_breakout_low < v')
  | None => forall b, breakout_info = Some b ->
      (forall d v, In (d, v) low_series -> ~ (b_date b < d <= b_date b + 7 * weeks_to_wait)%Z) \/
      (exists d v, In (d, v) low_series /\ (b_date b < d <= b_date b + 7 * weeks_to_wait)%Z /\
         v <= sp_price pre_breakout_low)
  end.
Proof. exact (confirm_higher_low_props low_series breakout_info pre_breakout_low weeks_to_wait). Qed.

(** ** Further properties: trend start *)

Lemma py_last_in {A} (l : list A) : forall x, py_last l = Some x -> In x l.
Proof.
  induction l as [|a l IH]; intros x H; [discriminate|].
  destruct l as [|b l]; [injection H as <-; left; reflexivity|].
  right. apply IH, H.
Qed.

Lemma py_last_some {A} (l : list A) : l <> [] -> exists x, py_last l = Some x.
Proof.
  induction l as [|a l IH]; intros H; [congruence|].
  destruct l as [|b l]; [exists a; reflexivity|]. apply IH. discriminate.
Qed.

(** [idxmin_go] returns its starting point or the first strict improvement
    on it that is minimal. *)
Lemma idxmin_go_first (s : series) : forall best,
  (idxmin_go best s = best /\ forall p, In p s -> snd best <= snd p) \/
  (exists i, nth_error s i = Some (idxmin_go best s) /\ snd (idxmin_go best s) < snd best /\
     forall j p, (j < i)%nat -> nth_error s j = Some p -> snd (idxmin_go best s) < snd p).
Proof.
  induction s as [|[d v] r IH]; intros best; simpl.
  - left. split; [reflexivity | intros p []].
  - destruct (Qlt_bool v (snd best)) eqn:E.
    + apply Qlt_bool_iff in E. right. destruct (IH (d, v)) as [[H1 H2]|(i & H1 & H2 & H3)].
      * exists 0%nat. rewrite H1. split; [reflexivity|]. split; [exact E|]. intros j p Hj; lia.
      * exists (S i). split; [exact H1|]. simpl in H2. split; [apply (Qlt_trans _ _ _ H2 E)|].
        intros [|j] p Hj Hp; [injection Hp as <-; exact H2 | apply (H3 j); [lia | exact Hp]].
    + apply Qlt_bool_false in E. destruct (IH best) as [[H1 H2]|(i & H1 & H2 & H3)].
      * left. split; [exact H1|]. intros p [<-|Hp]; [exact E | apply H2, Hp].
      * right. exists (S i). split; [exact H1|]. split; [exact H2|].
        intros [|j] p Hj Hp; [injection Hp as <-; apply (Qlt_le_trans _ _ _ H2 E)|].
        apply (H3 j); [lia | exact Hp].
Qed.

Lemma idxmin_first (s : series) (d : date) :
  idxmin s = Some d -> exists i v, nth_error s i = Some (d, v) /\
    (forall d' v', In (d', v') s -> v <= v') /\
    (forall j d' v', (j < i)%nat -> nth_error s j = Some (d', v') -> v < v').
Proof.
  destruct s as [|p r]; [discriminate|]. unfold idxmin. intros H. injection H as Hd.
  destruct (idxmin_go_spec r p) as (_ & Hle & Hall).
  destruct (idxmin_go_first r p) as [[H1 H2]|(i & H1 & H2 & H3)];
    destruct (idxmin_go p r) as [d0 v] eqn:E; cbn [fst snd] in *; subst d0.
  - exists 0%nat, v. rewrite <- H1. split; [reflexivity|].
    split; [intros d' v' [Hp|Hp]; [injection Hp as <- <-; apply Qle_refl | apply (Hall _ Hp)]|].
    intros j d' v' Hj; lia.
  - exists (S i), v. split; [exact H1|].
    split; [intros d' v' [Hp|Hp]; [rewrite Hp in Hle; exact Hle | apply (Hall _ Hp)]|].
    intros [|j] d' v' Hj Hp; [injection Hp as Hp; rewrite Hp in H2; exact H2 |].
    apply (H3 j (d', v')); [lia | exact Hp].
Qed.

(** [detect_trend_change] fails (raises in [idxmin]) exactly on an empty
    close series.  Otherwise the trend start is: with no detection
    information, the date of the first minimum close; with a breakout only,
    the date of that breakout, a bar of the close series; with a
    confirmation, a date of the low series strictly after the breakout and
    at most 12 weeks (84 days) after it. *)
Theorem detect_trend_change_result (close_series high_series low_series : series) :
  (detect_trend_change close_series high_series low_series = None <-> close_series = []) /\
  match detect_trend_change close_series high_series low_series with
  | None => True
  | Some (d, NoInfo) => exists i v, nth_error close_series i = Some (d, v) /\
      (forall d' v', In (d', v') close_series -> v <= v') /\
      (forall j d' v', (j < i)%nat -> nth_error close_series j = Some (d', v') -> v < v')
  | Some (d, WithBreakout b) => d = b_date b /\ In (b_date b, b_price b) close_series
  | Some (d, WithConfirmation b c) => d = c_date c /\ c_confirmed c = true /\
      In (b_date b, b_price b) close_series /\ (b_date b < d <= b_date b + 84)%Z /\
      exists v, In (d, v) low_series
  end.
Proof.
  pattern (detect_trend_change close_series high_series low_series).
  match goal with |- ?P _ => set (Pr := P) end.
  assert (Hfb : Pr (option_map (fun d => (d, NoInfo)) (idxmin close_series))).
  { unfold Pr. destruct (idxmin close_series) as [d|] eqn:E; cbn [option_map].
    - split; [split; [discriminate | intros ->; discriminate]|]. apply idxmin_first, E.
    - split; [|exact I]. split; [|reflexivity]. intros _.
      destruct close_series; [reflexivity | discriminate]. }
  assert (Hbr : forall b, In (b_date b, b_price b) close_series ->
            Pr (Some (b_date b, WithBreakout b))).
  { intros b Hb. unfold Pr. split; [|split; [reflexivity | exact Hb]].
    split; [discriminate | intros ->; destruct Hb]. }
  unfold detect_trend_change. cbv zeta.
  destruct (Nat.ltb (length (find_swing_highs high_series 4)) 2); [exact Hfb|].
  destruct (Nat.ltb (length (identify_lower_highs (find_swing_highs high_series 4) 2)) 2) eqn:Elh;
    [exact Hfb|].
  destruct (create_downtrend_line _) as [line|]; [|exact Hfb].
  destruct (py_last (identify_lower_highs (find_swing_highs high_series 4) 2)) as [lh|] eqn:Elast.
  2:{ exfalso. apply Nat.ltb_ge in Elh.
      destruct (py_last_some (identify_lower_highs (find_swing_highs high_series 4) 2)) as [x Hx].
      - intros He. rewrite He in Elh. simpl in Elh. lia.
      - congruence. }
  pose proof (detect_breakout_spec close_series (Some line) (sp_date lh)) as Hbo.
  destruct (detect_breakout close_series (Some line) (sp_date lh)) as [b|]; [|exact Hfb].
  destruct Hbo as (line' & pre & post & _ & _ & Hin & _).
  destruct (py_last (List.filter _ (find_swing_lows low_series 4))) as [pl|]; [|exact (Hbr b Hin)].
  pose proof (confirm_higher_low_props low_series (Some b) pl 12) as Hc.
  destruct (confirm_higher_low low_series (Some b) pl 12) as [c|]; [|exact (Hbr b Hin)].
  destruct (c_confirmed c) eqn:Ecc; [|exact (Hbr b Hin)].
  destruct Hc as (b' & v & Eb & _ & Hv & Hd & _). injection Eb as <-.
  unfold Pr. split; [split; [discriminate | intros ->; destruct Hin]|].
  split; [reflexivity|]. split; [exact Ecc|]. split; [exact Hin|].
  split; [exact Hd | exists v; exact Hv].
Qed.
(** ** Further properties: the optimiser and the batch runner *)

Lemma fold_improve_source {X Res} (sc : X -> Q) (mk : X -> Res) (l : list X) : forall st,
  fst (fold_left (improve sc mk) l st) = fst st \/
  exists x, In x l /\ fst (fold_left (improve sc mk) l st) = Some (mk x).
Proof.
  induction l as [|a l IH]; intros st; simpl; [left; reflexivity|].
  change (improve sc mk st a) with (if Qlt_bool (snd st) (sc a) then (Some (mk a), sc a) else st).
  destruct (Qlt_bool (snd st) (sc a)).
  - destruct (IH (Some (mk a), sc a)) as [H|[x [Hx H]]].
    + right. exists a. split; [left; reflexivity | exact H].
    + right. exists x. split; [right; exact Hx | exact H].
  - destruct (IH st) as [H|[x [Hx H]]]; [left; exact H|].
    right. exists x. split; [right; exact Hx | exact H].
Qed.

Lemma evaluate_weeks_total (fs : list Q) : forall (ls cs : list Q) t b,
  (fst (evaluate_weeks fs ls cs (t, b)) + snd (evaluate_weeks fs ls cs (t, b)) <= t + b + length cs)%nat.
Proof.
  induction fs as [|f fs IH]; intros ls cs t b; destruct ls as [|l ls]; destruct cs as [|c cs];
    simpl; try lia.
  unfold classify_week.
  destruct (in_tolerance _); [destruct (Qle_bool f c)|destruct (Qlt_bool c f)];
    (eapply Nat.le_trans; [apply IH|]); simpl; lia.
Qed.

Lemma bool_mask_low (o : Optimizer) :
  bool_mask (opt_mask_of o) (values (o_low o)) =
  if Nat.eqb (length (o_close o)) (length (o_low o)) then Some (window_low o) else None.
Proof.
  unfold bool_mask, window_low, values. rewrite length_opt_mask, length_map. reflexivity.
Qed.

Lemma optimize_none_iff (o : Optimizer) :
  optimize o = None <-> length (o_low o) <> length (o_close o).
Proof.
  unfold optimize. rewrite (bool_mask_values _ _ (length_opt_mask o)), bool_mask_low.
  destruct (Nat.eqb_spec (length (o_close o)) (length (o_low o))) as [Hl|Hl].
  - split; [|intros H; congruence].
    destruct (Nat.ltb _ _); [discriminate|]. destruct (fold_left _ _ _); discriminate.
  - split; [intros _; congruence | reflexivity].
Qed.

Lemma optimize_some_shape (o : Optimizer) (r : OptResult) :
  optimize o = Some r ->
  r_trend_start r = o_trend_start o /\
  (r = default_result (o_trend_start o) \/
   (In (r_period r, r_shift r) (grid (o_constraints o)) /\
    r = cand_result o (r_period r, r_shift r) /\
    (r_tests r + r_breaches r <= length (window o))%nat /\
    r_score r = score_of (r_tests r) (r_breaches r))).
Proof.
  intros Hr. unfold optimize in Hr. rewrite (bool_mask_values _ _ (length_opt_mask o)), bool_mask_low in Hr.
  change (mask_select (opt_mask_of o) (values (o_close o))) with (window o) in Hr.
  destruct (Nat.eqb (length (o_close o)) (length (o_low o))); [|discriminate].
  destruct (Nat.ltb (length (window o)) 10).
  - injection Hr as <-. split; [reflexivity | left; reflexivity].
  - rewrite period_loop_improve in Hr.
    change (flat_map (fun p => map (fun s => (p, s)) (shift_range (o_constraints o)))
                     (ema_range (o_constraints o))) with (grid (o_constraints o)) in Hr.
    destruct (fold_improve_source (cand_score o) (cand_result o) (grid (o_constraints o)) (None, -999999))
      as [H|[x [Hx H]]];
      destruct (fold_left _ (grid (o_constraints o)) _) as [best bs]; cbn [fst] in H; subst best;
      injection Hr as <-.
    + split; [reflexivity | left; reflexivity].
    + destruct x as [p s]. split; [reflexivity|]. right.
      cbn [cand_result r_period r_shift r_tests r_breaches r_score].
      split; [exact Hx|]. split; [reflexivity|].
      split; [apply (evaluate_weeks_total _ _ _ 0 0) | reflexivity].
Qed.

(** [optimize] raises ([IndexError] of [self.low[opt_mask]]) exactly when
    the low series and the close series differ in length.  When it
    succeeds, the result carries the optimiser's trend start, and it is
    either the fixed default (period 20, shift -0.05, no tests, no
    breaches, score 0) or the evaluation of a (period, shift) pair of the
    optimiser's grid, whose support tests and breaches together never
    exceed the number of bars of the window. *)
Theorem optimize_result_shape (o : Optimizer) :
  (optimize o = None <-> length (o_low o) <> length (o_close o)) /\
  forall r, optimize o = Some r ->
    r_trend_start r = o_trend_start o /\
    (r = default_result (o_trend_start o) \/
     (In (r_period r, r_shift r) (grid (o_constraints o)) /\
      r = cand_result o (r_period r, r_shift r) /\
      (r_tests r + r_breaches r <= length (window o))%nat /\
      r_score r = score_of (r_tests r) (r_breaches r))).
Proof. split; [apply optimize_none_iff | apply optimize_some_shape]. Qed.

Lemma ASSET_CLASSES_profiles (ticker k : string) :
  ASSET_CLASSES !! ticker = Some k -> exists c, CONSTRAINTS !! k = Some c.
Proof.
  intros H. apply elem_of_list_to_map_2, list_elem_of_In in H.
  repeat (destruct H as [H|H]; [injection H as _ <-; eexists; vm_compute; reflexivity|]).
  destruct H.
Qed.

Lemma init_profile (ticker : string) (cs hs ls : series) (o : Optimizer) :
  init ticker cs hs ls = Some o ->
  o_close o = cs /\ o_low o = ls /\
  CONSTRAINTS !! default "large_cap" (ASSET_CLASSES !! ticker) = Some (o_constraints o).
Proof.
  unfold init. intros H.
  destruct (CONSTRAINTS !! "large_cap") as [fc|] eqn:Ef; [|discriminate].
  destruct (detect_trend_change cs hs ls) as [[ts info]|]; [|discriminate].
  pose proof (f_equal (option_map o_close) H) as Hc. pose proof (f_equal (option_map o_low) H) as Hl.
  cbn [option_map o_close o_low] in Hc, Hl. injection Hc as <-. injection Hl as <-.
  split; [reflexivity|]. split; [reflexivity|].
  apply (f_equal (option_map o_constraints)) in H.
  destruct (ASSET_CLASSES !! ticker) as [k|] eqn:Ea.
  - destruct (ASSET_CLASSES_profiles _ _ Ea) as [c Hc].
    cbn [default from_option Datatypes.id] in H |- *. rewrite Hc in H |- *.
    cbn [option_map o_constraints default] in H. injection H as <-. reflexivity.
  - cbn [default from_option] in H |- *. rewrite Ef in H |- *.
    cbn [option_map o_constraints default] in H. injection H as <-. reflexivity.
Qed.

Lemma detect_trend_change_some (close_series high_series low_series : series) :
  close_series <> [] -> exists x, detect_trend_change close_series high_series low_series = Some x.
Proof.
  intros Hne.
  assert (Hfb : exists x, option_map (fun d => (d, NoInfo)) (idxmin close_series) = Some x).
  { destruct close_series as [|p r]; [congruence|]. eexists. reflexivity. }
  unfold detect_trend_change. cbv zeta.
  destruct (Nat.ltb (length (find_swing_highs high_series 4)) 2); [exact Hfb|].
  destruct (Nat.ltb (length (identify_lower_highs (find_swing_highs high_series 4) 2)) 2) eqn:Elh;
    [exact Hfb|].
  destruct (create_downtrend_line _) as [line|]; [|exact Hfb].
  destruct (py_last (identify_lower_highs (find_swing_highs high_series 4) 2)) as [lh|] eqn:Elast.
  2:{ exfalso. apply Nat.ltb_ge in Elh.
      destruct (py_last_some (identify_lower_highs (find_swing_highs high_series 4) 2)) as [x Hx].
      - intros He. rewrite He in Elh. simpl in Elh. lia.
      - congruence. }
  destruct (detect_breakout close_series (Some line) (sp_date lh)) as [b|]; [|exact Hfb].
  destruct (py_last (List.filter _ (find_swing_lows low_series 4))) as [pl|]; [|eexists; reflexivity].
  destruct (confirm_higher_low low_series (Some b) pl 12) as [c|]; [|eexists; reflexivity].
  destruct (c_confirmed c); eexists; reflexivity.
Qed.

Lemma init_some (ticker : string) (cs hs ls : series) :
  cs <> [] -> exists o, init ticker cs hs ls = Some o.
Proof.
  intros Hne. unfold init.
  destruct (detect_trend_change_some cs hs ls Hne) as [[ts info] E].
  rewrite CONSTRAINTS_large_cap, E. eexists. reflexivity.
Qed.

Lemma optimize_one_step (df : DataFrame) (params params' : gmap string (Z * Q)) (ticker : string) :
  optimize_one df params ticker = Some params' ->
  exists v, params' = <[ticker := v]> params /\
    (v = default_params \/
     exists c, CONSTRAINTS !! default "large_cap" (ASSET_CLASSES !! ticker) = Some c /\ In v (grid c)).
Proof.
  unfold optimize_one. intros H.
  destruct (df !! (ticker +:+ "_close")) as [cc|];
    [destruct (df !! (ticker +:+ "_high")) as [hc|];
     [destruct (df !! (ticker +:+ "_low")) as [lc|]|]|];
    try (injection H as <-; eexists; split; [reflexivity | left; reflexivity]).
  destruct (Nat.ltb _ 52); [injection H as <-; eexists; split; [reflexivity | left; reflexivity]|].
  destruct (init ticker (dropna cc) (dropna hc) (dropna lc)) as [o|] eqn:Ei; [|discriminate].
  destruct (optimize o) as [r|] eqn:Er; [|discriminate]. injection H as <-.
  eexists. split; [reflexivity|].
  destruct (init_profile _ _ _ _ _ Ei) as (_ & _ & Hc).
  destruct (optimize_some_shape o r Er) as [_ [Hd|(Hg & _)]].
  - left. rewrite Hd. reflexivity.
  - right. exists (o_constraints o). split; [exact Hc | exact Hg].
Qed.

Lemma optimize_one_some (df : DataFrame) (params : gmap string (Z * Q)) (ticker : string) :
  (forall cc lc, df !! (ticker +:+ "_close") = Some cc -> df !! (ticker +:+ "_low") = Some lc ->
     length (dropna lc) = length (dropna cc)) ->
  exists params', optimize_one df params ticker = Some params'.
Proof.
  intros Hlen. unfold optimize_one.
  destruct (df !! (ticker +:+ "_close")) as [cc|] eqn:Ec;
    [destruct (df !! (ticker +:+ "_high")) as [hc|];
     [destruct (df !! (ticker +:+ "_low")) as [lc|] eqn:El|]|]; try (eexists; reflexivity).
  destruct (Nat.ltb_spec (length (dropna cc)) 52) as [_|Hge]; [eexists; reflexivity|].
  destruct (init_some ticker (dropna cc) (dropna hc) (dropna lc)) as [o Ei].
  { intros He. rewrite He in Hge. simpl in Hge. lia. }
  rewrite Ei. destruct (init_profile _ _ _ _ _ Ei) as (Hc & Hl & _).
  destruct (optimize o) as [r|] eqn:Er; [eexists; reflexivity|].
  exfalso. apply optimize_none_iff in Er. apply Er. rewrite Hc, Hl. apply Hlen; reflexivity.
Qed.

Lemma optimize_all_go_spec (df : DataFrame) (tickers : list string) : forall params res,
  optimize_all_go df params tickers = Some res ->
  (forall t, is_Some (res !! t) <-> is_Some (params !! t) \/ In t tickers) /\
  (forall t p, res !! t = Some p ->
     (~ In t tickers /\ params !! t = Some p) \/ p = default_params \/
     exists c, CONSTRAINTS !! default "large_cap" (ASSET_CLASSES !! t) = Some c /\ In p (grid c)).
Proof.
  induction tickers as [|t0 rest IH]; intros params res H; cbn [optimize_all_go] in H.
  - injection H as <-. split; [intros t; simpl; tauto|].
    intros t p Hp. left. split; [intros []|exact Hp].
  - destruct (optimize_one df params t0) as [params'|] eqn:E1; [|discriminate].
    destruct (optimize_one_step _ _ _ _ E1) as (v & -> & Hv).
    destruct (IH _ _ H) as [Hdom Hval]. split.
    + intros t. rewrite Hdom. destruct (decide (t0 = t)) as [<-|Hne].
      * rewrite lookup_insert_eq. simpl. split; [tauto|]. intros _. left. eexists. reflexivity.
      * rewrite lookup_insert_ne by exact Hne. simpl. split; [tauto|].
        intros [H1|[H1|H1]]; [left; exact H1 | congruence | right; exact H1].
    + intros t p Hp. destruct (Hval t p Hp) as [[Hn Hp']|Hp']; [|right; exact Hp'].
      destruct (decide (t0 = t)) as [<-|Hne].
      * rewrite lookup_insert_eq in Hp'. injection Hp' as <-. right. exact Hv.
      * rewrite lookup_insert_ne in Hp' by exact Hne. left.
        split; [intros [H1|H1]; [congruence | apply Hn, H1] | exact Hp'].
Qed.

(** On success, [optimize_all_etfs] returns parameters for exactly the
    tickers it was given, and each ticker's (period, shift) is either the
    fixed default (20, -0.05) or a pair of the grid of its asset class's
    profile (the [large_cap] profile for a ticker missing from
    [ASSET_CLASSES]). *)
Theorem optimize_all_etfs_params (df : DataFrame) (tickers : list string)
    (params : gmap string (Z * Q)) :
  optimize_all_etfs df tickers = Some params ->
  (forall t, is_Some (params !! t) <-> In t tickers) /\
  (forall t p, params !! t = Some p ->
     p = default_params \/
     exists c, CONSTRAINTS !! default "large_cap" (ASSET_CLASSES !! t) = Some c /\ In p (grid c)).
Proof.
  intros H. destruct (optimize_all_go_spec df tickers ∅ params H) as [Hdom Hval]. split.
  - intros t. rewrite Hdom, lookup_empty. split; [intros [[x Hx]|Hx]; [discriminate | exact Hx] | tauto].
  - intros t p Hp. destruct (Hval t p Hp) as [[_ Hp']|Hp']; [|exact Hp'].
    rewrite lookup_empty in Hp'. discriminate.
Qed.

(** [optimize_all_etfs] never fails when, for every ticker it is given
    that has a close and a low column, the low column has as many non-NaN
    values as the close column. *)
Theorem optimize_all_etfs_succeeds (df : DataFrame) (tickers : list string) :
  (forall t cc lc, In t tickers -> df !! (t +:+ "_close") = Some cc -> df !! (t +:+ "_low") = Some lc ->
     length (dropna lc) = length (dropna cc)) ->
  exists params, optimize_all_etfs df tickers = Some params.
Proof.
  unfold optimize_all_etfs. generalize (∅ : gmap string (Z * Q)).
  induction tickers as [|t rest IH]; intros params Hlen; cbn [optimize_all_go]; [eexists; reflexivity|].
  destruct (optimize_one_some df params t) as [params' E].
  { intros cc lc. apply Hlen. left. reflexivity. }
  rewrite E. apply IH. intros t' cc lc Ht'. apply Hlen. right. exact Ht'.
Qed.

(** A frame of three tickers: "SPY" with 60 weekly bars (a downtrend of
    lower highs, a breakout and a higher low), "AAA" with 12 bars, and
    "ZZZ" with no column. *)
Definition long_prices : list Z :=
  [100;102;104;106;120;106;104;102;100;98;96;98;100;115;100;98;96;94;92;90;
   92;94;110;94;92;90;88;86;84;86;88;90;92;94;96;98;100;104;108;112;
   110;106;104;102;104;106;110;114;118;120;118;116;118;122;126;128;126;124;127;130]%Z.

Definition sample_long : series := weekly long_prices.

Definition full_column (s : series) : column := map (fun '(d, v) => (d, Some v)) s.

Definition sample_frame : DataFrame :=
  list_to_map [("SPY_close", full_column sample_long);
               ("SPY_high", full_column (map (fun '(d, v) => (d, v + 2)) sample_long));
               ("SPY_low", full_column (map (fun '(d, v) => (d, v - 2)) sample_long));
               ("AAA_close", full_column sample_rising); ("AAA_high", full_column sample_rising);
               ("AAA_low", full_column sample_rising)].

Definition sample_tickers : list string := ["SPY"; "AAA"; "ZZZ"].

Lemma sample_frame_optimized : is_Some (optimize_all_etfs sample_frame sample_tickers).
Proof. vm_compute. eexists. reflexivity. Qed.

Lemma optimize_all_etfs_params_witness :
  exists params, optimize_all_etfs sample_frame sample_tickers = Some params /\
  ((forall t, is_Some (params !! t) <-> In t sample_tickers) /\
   (forall t p, params !! t = Some p ->
      p = default_params \/
      exists c, CONSTRAINTS !! default "large_cap" (ASSET_CLASSES !! t) = Some c /\ In p (grid c))).
Proof.
  destruct sample_frame_optimized as [params E].
  exists params. split; [exact E | exact (optimize_all_etfs_params _ _ _ E)].
Defined.

Lemma optimize_all_etfs_succeeds_witness :
  (forall t cc lc, In t sample_tickers -> sample_frame !! (t +:+ "_close") = Some cc ->
     sample_frame !! (t +:+ "_low") = Some lc -> length (dropna lc) = length (dropna cc)) /\
  exists params, optimize_all_etfs sample_frame sample_tickers = Some params.
Proof.
  assert (H : forall t cc lc, In t sample_tickers -> sample_frame !! (t +:+ "_close") = Some cc ->
     sample_frame !! (t +:+ "_low") = Some lc -> length (dropna lc) = length (dropna cc)).
  { intros t cc lc Ht Hc Hl. destruct Ht as [<-|[<-|[<-|[]]]]; vm_compute in Hc, Hl;
      try discriminate; injection Hc as <-; injection Hl as <-; vm_compute; reflexivity. }
  split; [exact H | exact (optimize_all_etfs_succeeds _ _ H)].
Defined.

(** ** Tickers of the price file *)

(** [needle in haystack] for strings. *)
Fixpoint str_contains (needle haystack : string) : bool :=
  orb (String.prefix needle haystack)
      (match haystack with
       | EmptyString => false
       | String _ rest => str_contains needle rest
       end).

(** [s.replace(old, new)] for a nonempty [old]: occurrences are replaced
    from left to right without overlapping; [skip] counts the characters
    of the occurrence being replaced that remain to be dropped. *)
Fixpoint replace_go (old new : string) (skip : nat) (s : string) : string :=
  match s with
  | EmptyString => EmptyString
  | String c rest =>
      match skip with
      | S k => replace_go old new k rest
      | O =>
          if String.prefix old s then new +:+ replace_go old new (String.length old - 1) rest
          else String c (replace_go old new 0 rest)
      end
  end.

Definition str_replace (old new s : string) : string := replace_go old new 0 s.

(** [s.endswith(suffix)] *)
Definition ends_with (suffix s : string) : bool :=
  String.eqb (String.substring (String.length s - String.length suffix) (String.length suffix) s) suffix.

(** The tickers [load_etf_prices] reads off the columns of the price file:
    [[col.replace('_close', '') for col in df.columns if col.endswith('_close')]]. *)
Definition load_etf_tickers (columns : list string) : list string :=
  map (str_replace "_close" "") (List.filter (ends_with "_close") columns).

Lemma append_cons (c : Ascii.ascii) (s1 s2 : string) : String c s1 +:+ s2 = String c (s1 +:+ s2).
Proof. reflexivity. Qed.

Lemma append_empty (s : string) : "" +:+ s = s.
Proof. reflexivity. Qed.

Lemma length_append (s1 s2 : string) : String.length (s1 +:+ s2) = (String.length s1 + String.length s2)%nat.
Proof.
  induction s1 as [|c s1 IH]; [reflexivity|]. rewrite append_cons. cbn [String.length]. rewrite IH.
  reflexivity.
Qed.

Lemma substring_append (s1 s2 : string) (m : nat) :
  String.substring (String.length s1) m (s1 +:+ s2) = String.substring 0 m s2.
Proof.
  induction s1 as [|c s1 IH]; [reflexivity|]. rewrite append_cons. cbn [String.length String.substring].
  exact IH.
Qed.

Lemma close_no_straddle (c : Ascii.ascii) (t : string) :
  String.prefix "_close" (String c t) = false ->
  String.prefix "_close" (String c (t +:+ "_close")) = false.
Proof.
  intros H.
  destruct t as [|c1 [|c2 [|c3 [|c4 [|c5 t]]]]]; rewrite ?append_cons, ?append_empty;
    repeat first
      [ progress (cbn [String.prefix] in * )
      | match goal with |- context [Ascii.ascii_dec ?a ?b] => destruct (Ascii.ascii_dec a b); subst end
      | match goal with H : context [Ascii.ascii_dec ?a ?b] |- _ => destruct (Ascii.ascii_dec a b); subst end ];
    try reflexivity; try discriminate; try congruence.
  destruct t; discriminate.
Qed.

Lemma replace_close_append (t : string) :
  str_contains "_close" t = false -> replace_go "_close" "" 0 (t +:+ "_close") = t.
Proof.
  induction t as [|c t IH]; intros H; [reflexivity|].
  cbn [str_contains] in H. apply orb_false_iff in H as [Hp Ht].
  rewrite append_cons.
  cbn [replace_go]. rewrite (close_no_straddle c t Hp). rewrite (IH Ht). reflexivity.
Qed.

(** A ticker whose name does not contain "_close" is read back from its
    close column by [load_etf_prices]: the column "<ticker>_close" ends
    with "_close" and [replace('_close', '')] gives the ticker back, so
    every such ticker with a close column in the file is in the list of
    tickers that [optimize_all_etfs] then runs over. *)
Theorem load_etf_tickers_close_column (columns : list string) (t : string)
    (Ht : str_contains "_close" t = false) (Hin : In (t +:+ "_close") columns) :
  ends_with "_close" (t +:+ "_close") = true /\ str_replace "_close" "" (t +:+ "_close") = t /\
  In t (load_etf_tickers columns).
Proof.
  assert (He : ends_with "_close" (t +:+ "_close") = true).
  { unfold ends_with. rewrite length_append.
    replace (String.length t + String.length "_close" - String.length "_close")%nat
      with (String.length t) by lia.
    rewrite substring_append. reflexivity. }
  assert (Hr : str_replace "_close" "" (t +:+ "_close") = t) by (apply replace_close_append; exact Ht).
  split; [exact He|]. split; [exact Hr|].
  unfold load_etf_tickers. apply in_map_iff. exists (t +:+ "_close"). split; [exact Hr|].
  apply filter_In. split; assumption.
Qed.

Lemma load_etf_tickers_close_column_witness :
  str_contains "_close" "SPY" = false /\ In ("SPY" +:+ "_close") ["Date"; "SPY_close"; "SPY_high"] /\
  In "SPY" (load_etf_tickers ["Date"; "SPY_close"; "SPY_high"]).
Proof.
  assert (H1 : str_contains "_close" "SPY" = false) by reflexivity.
  assert (H2 : In ("SPY" +:+ "_close") ["Date"; "SPY_close"; "SPY_high"]) by (right; left; reflexivity).
  split; [exact H1|]. split; [exact H2|].
  exact (proj2 (proj2 (load_etf_tickers_close_column _ _ H1 H2))).
Defined.

End Fbis.

Module Core.

Import Lra.
Open Scope R_scope.

(** ** EMA and parameters *)

(** [calculate_ema]: [ema[0] = prices[0]],
    [ema[i] = prices[i] * k + ema[i-1] * (1 - k)], [k = 2 / (period + 1)];
    [ema[0] = prices[0]] raises [IndexError] on an empty series, and
    [2 / (period + 1)] raises [ZeroDivisionError] at period -1 (both
    [None]). *)
Fixpoint ema_go (k prev : R) (xs : list R) : list R :=
  match xs with
  | [] => []
  | x :: r => let e := x * k + prev * (1 - k) in e :: ema_go k e r
  end.

Definition calculate_ema (prices : list R) (period : R) : option (list R) :=
  match prices with
  | [] => None
  | p0 :: r =>
      if Req_dec_T (period + 1) 0 then None
      else let k := 2 / (period + 1) in Some (p0 :: ema_go k p0 r)
  end.

(** [fbis_params] maps a ticker to its dict [{'period': ..., 'shift': ...}]. *)
Abbreviation FbisParams := (gmap string (gmap string R)).

(** [fbis_params.get(ticker, {}).get(key, dflt)] *)
Definition param_get (fbis_params : FbisParams) (ticker key : string) (dflt : R) : R :=
  default dflt (default ∅ (fbis_params !! ticker) !! key).

(** ** Volatility and score *)

Definition Rsum (l : list R) : R := fold_right Rplus 0 l.

(** [np.std(xs, ddof=1)] (a NaN of numpy is not modelled: an empty or
    one-element list gives 0 here). *)
Definition np_std_ddof1 (xs : list R) : R :=
  let n := INR (length xs) in
  let mean := Rsum xs / n in
  sqrt (Rsum (map (fun x => (x - mean) * (x - mean)) xs) / (n - 1)).

Definition lastn {A} (n : nat) (l : list A) : list A := skipn (length l - n) l.

Definition calculate_etf_volatility (prices : list R) (weeks : nat) : R :=
  let weeks := if Nat.ltb (length prices) (weeks + 1) then (length prices - 1)%nat else weeks in
  let recent_prices := lastn (weeks + 1) prices in
  let returns := map (fun '(a, b) => (b - a) / a) (combine recent_prices (tl recent_prices)) in
  np_std_ddof1 returns.

(** Python's [min(a, b)] and [max(a, b)]: the first argument unless the
    second is strictly smaller (resp. greater). *)
Definition py_min (a b : R) : R := if Rlt_dec b a then b else a.
Definition py_max (a b : R) : R := if Rlt_dec a b then b else a.

(** [calculate_satid_score_linear] over the reals.  Where
    [volatility_weekly * np.sqrt(horizon_weeks)] is not a nonzero number
    (a zero volatility or horizon, a negative horizon) numpy yields an
    infinity or a NaN; here [x / 0 = 0] and [sqrt] of a negative is 0, so
    the model follows the code only for a nonzero horizon volatility (or
    a distance at most 0, returned before the division). *)
Definition calculate_satid_score_linear (distance_pct volatility_weekly horizon_weeks : R) : R :=
  if Rle_dec distance_pct 0 then 100
  else
    let volatility_horizon := volatility_weekly * sqrt horizon_weeks in
    let z_score := distance_pct / volatility_horizon in
    let score := 100 - (z_score * 25) in
    py_max 0 (py_min 100 score).

(** ** Per-ETF analysis *)

Record EtfRisk := {
  er_ticker : string;
  er_current_price : R;
  er_fbis : R;
  er_distance_pct : R;
  er_volatility_weekly : R;
  er_satid_score_1week : R;
  er_satid_score_1month : R;
  er_allocation : R;
  er_contribution_1week : R;
  er_contribution_1month : R
}.

Definition analyze_etf_risk (ticker : string) (prices : list R) (fbis_params : FbisParams)
    (weeks_lookback : nat) : option EtfRisk :=
  match Fbis.py_last prices with
  | None => None
  | Some current_price =>
      let period := param_get fbis_params ticker "period" 8 in
      let shift := param_get fbis_params ticker "shift" 0 in
      match calculate_ema prices period with
      | None => None
      | Some ema =>
          match Fbis.py_last ema with
          | None => None
          | Some ema_last =>
              let fbis := ema_last * (1 + shift) in
              let distance_pct := (current_price - fbis) / current_price in
              let volatility := calculate_etf_volatility prices weeks_lookback in
              Some {| er_ticker := ticker; er_current_price := current_price; er_fbis := fbis;
                      er_distance_pct := distance_pct; er_volatility_weekly := volatility;
                      er_satid_score_1week := calculate_satid_score_linear distance_pct volatility 1;
                      er_satid_score_1month :=
                        calculate_satid_score_linear distance_pct volatility (433 / 100);
                      er_allocation := 0; er_contribution_1week := 0; er_contribution_1month := 0 |}
          end
      end
  end.

(** ** Portfolio series *)

(** The OHLC frame after [sort_values('Date')]: its dates and its columns. *)
Record OhlcFrame := { f_dates : list Z; f_columns : gmap string (list R) }.

(** numpy element-wise sum of two arrays of the frame's length. *)
Definition vadd (a b : list R) : list R := map (fun '(x, y) => x + y) (combine a b).

Fixpoint series_loop (df : OhlcFrame) (fbis_params : FbisParams) (allocations : list (string * R))
    (portfolio_values portfolio_fbis : list R) : option (list R * list R) :=
  match allocations with
  | [] => Some (portfolio_values, portfolio_fbis)
  | (ticker, weight) :: rest =>
      match f_columns df !! (ticker +:+ "_close") with
      | None => series_loop df fbis_params rest portfolio_values portfolio_fbis
      | Some prices =>
          let period := param_get fbis_params ticker "period" 8 in
          let shift := param_get fbis_params ticker "shift" 0 in
          match calculate_ema prices period with
          | None => None
          | Some ema =>
              let fbis := map (fun e => e * (1 + shift)) ema in
              match prices with
              | [] => None
              | p0 :: _ =>
                  series_loop df fbis_params rest
                    (vadd portfolio_values (map (fun p => p / p0 * weight) prices))
                    (vadd portfolio_fbis (map (fun f => f / p0 * weight) fbis))
              end
          end
      end
  end.

Definition calculate_portfolio_series (df : OhlcFrame) (allocations : list (string * R))
    (fbis_params : FbisParams) : option (list Z * list R * list R) :=
  let n_periods := length (f_dates df) in
  match series_loop df fbis_params allocations (repeat 0 n_periods) (repeat 0 n_periods) with
  | Some (portfolio_values, portfolio_fbis) => Some (f_dates df, portfolio_values, portfolio_fbis)
  | None => None
  end.

(** ** Portfolio risk exposure *)

Record RiskRow := {
  rr_ticker : string;
  rr_asset_class : string;
  rr_allocation : R;
  rr_pct_to_support : R;
  rr_usd_at_risk : R
}.

Record ClassSummary := { cs_weight : R; cs_avg_dist : R; cs_usd_at_risk : R; cs_count : nat }.

Definition empty_summary : ClassSummary :=
  {| cs_weight := 0; cs_avg_dist := 0; cs_usd_at_risk := 0; cs_count := 0 |}.

Fixpoint risk_loop (df : OhlcFrame) (allocations : list (string * R))
    (asset_classes : gmap string string) (fbis_params : FbisParams) (portfolio_value : R)
    (risk_data : list RiskRow) (summary : gmap string ClassSummary)
    : option (list RiskRow * gmap string ClassSummary) :=
  match allocations with
  | [] => Some (risk_data, summary)
  | (ticker, allocation_pct) :: rest =>
      match f_columns df !! (ticker +:+ "_close") with
      | None => risk_loop df rest asset_classes fbis_params portfolio_value risk_data summary
      | Some prices =>
          match Fbis.py_last prices with
          | None => None
          | Some current_price =>
              let period := param_get fbis_params ticker "period" 8 in
              let shift := param_get fbis_params ticker "shift" 0 in
              match calculate_ema prices period with
              | None => None
              | Some ema =>
                  match Fbis.py_last ema with
                  | None => None
                  | Some ema_last =>
                      let fbis_support := ema_last * (1 + shift) in
                      let pct_to_support := ((current_price - fbis_support) / current_price) * 100 in
                      let position_value := portfolio_value * (allocation_pct / 100) in
                      let usd_at_risk := position_value * (- pct_to_support / 100) in
                      let asset_class := default "Unknown" (asset_classes !! ticker) in
                      let row := {| rr_ticker := ticker; rr_asset_class := asset_class;
                                    rr_allocation := allocation_pct;
                                    rr_pct_to_support := pct_to_support;
                                    rr_usd_at_risk := usd_at_risk |} in
                      let s := default empty_summary (summary !! asset_class) in
                      let s' := {| cs_weight := cs_weight s + allocation_pct;
                                   cs_avg_dist := cs_avg_dist s + pct_to_support * allocation_pct;
                                   cs_usd_at_risk := cs_usd_at_risk s + usd_at_risk;
                                   cs_count := S (cs_count s) |} in
                      risk_loop df rest asset_classes fbis_params portfolio_value
                        (risk_data ++ [row]) (<[asset_class := s']> summary)
                  end
              end
          end
      end
  end.

Definition calculate_portfolio_risk (df : OhlcFrame) (allocations : list (string * R))
    (asset_classes : gmap string string) (fbis_params : FbisParams) (portfolio_value : R)
    : option (list RiskRow * gmap string ClassSummary) :=
  match risk_loop df allocations asset_classes fbis_params portfolio_value [] ∅ with
  | None => None
  | Some (risk_data, summary) =>
      Some (risk_data,
            (fun s => {| cs_weight := cs_weight s;
                         cs_avg_dist := if Rlt_dec 0 (cs_weight s) then cs_avg_dist s / cs_weight s else 0;
                         cs_usd_at_risk := cs_usd_at_risk s; cs_count := cs_count s |}) <$> summary)
  end.

(** ** Score range (claim C5) *)

(** C5: the linear SATID score is always in [0, 100], and it is exactly 100
    when the distance to the support level is zero or negative, whatever
    the volatility and the horizon. *)
Theorem satid_score_range (distance_pct volatility_weekly horizon_weeks : R) :
  (0 <= calculate_satid_score_linear distance_pct volatility_weekly horizon_weeks <= 100) /\
  (distance_pct <= 0 ->
   calculate_satid_score_linear distance_pct volatility_weekly horizon_weeks = 100).
Proof.
  unfold calculate_satid_score_linear, py_max, py_min.
  destruct (Rle_dec distance_pct 0) as [Hle|Hgt].
  - split; [lra | reflexivity].
  - split; [|intros H; exfalso; apply Hgt; exact H].
    set (sc := 100 - distance_pct / (volatility_weekly * sqrt horizon_weeks) * 25).
    destruct (Rlt_dec sc 100) as [H1|H1];
      [destruct (Rlt_dec 0 sc) as [H2|H2] | destruct (Rlt_dec 0 100) as [H2|H2]]; lra.
Qed.

Lemma satid_score_range_witness :
  (0 <= calculate_satid_score_linear (-1 / 100) (1 / 10000) 1 <= 100) /\
  (-1 / 100 <= 0 -> calculate_satid_score_linear (-1 / 100) (1 / 10000) 1 = 100).
Proof. apply (satid_score_range (-1 / 100) (1 / 10000) 1). Defined.

(** ** Score formula (claim C8) *)

(** C8: for a positive distance, and a horizon volatility
    [volatility * sqrt h] that is a nonzero number (numpy divides a
    positive distance by a zero to infinity, and takes no square root of
    a negative horizon), the score is
    [clamp(100 - 25 * distance_pct / (volatility * sqrt h), 0, 100)];
    for distance 0.05, weekly volatility 0.02 and horizon 1 week the
    z-score is 2.5 and the score 37.5. *)
Theorem satid_score_formula :
  (forall distance_pct volatility_weekly horizon_weeks : R,
     0 < distance_pct -> volatility_weekly * sqrt horizon_weeks <> 0 ->
     calculate_satid_score_linear distance_pct volatility_weekly horizon_weeks =
     Rmax 0 (Rmin 100 (100 - 25 * distance_pct / (volatility_weekly * sqrt horizon_weeks)))) /\
  (5 / 100) / ((2 / 100) * sqrt 1) = 5 / 2 /\
  calculate_satid_score_linear (5 / 100) (2 / 100) 1 = 75 / 2.
Proof.
  split; [|split].
  - intros d v h Hd _. unfold calculate_satid_score_linear, py_max, py_min.
    destruct (Rle_dec d 0) as [Hle|_]; [lra|].
    replace (100 - d / (v * sqrt h) * 25) with (100 - 25 * d / (v * sqrt h))
      by (unfold Rdiv; ring).
    set (sc := 100 - 25 * d / (v * sqrt h)).
    unfold Rmin, Rmax.
    destruct (Rlt_dec sc 100); destruct (Rle_dec 100 sc);
      try destruct (Rlt_dec 0 sc); try destruct (Rlt_dec 0 100);
      try destruct (Rle_dec 0 sc); try destruct (Rle_dec 0 100); lra.
  - rewrite sqrt_1. field.
  - unfold calculate_satid_score_linear, py_max, py_min.
    destruct (Rle_dec (5 / 100) 0) as [H|_]; [lra|].
    rewrite sqrt_1.
    replace (100 - 5 / 100 / (2 / 100 * 1) * 25) with (75 / 2) by field.
    destruct (Rlt_dec (75 / 2) 100); [|lra].
    destruct (Rlt_dec 0 (75 / 2)); lra.
Qed.

Lemma satid_score_formula_witness :
  0 < 5 / 100 /\ (2 / 100) * sqrt 1 <> 0 /\
  calculate_satid_score_linear (5 / 100) (2 / 100) 1 =
  Rmax 0 (Rmin 100 (100 - 25 * (5 / 100) / ((2 / 100) * sqrt 1))).
Proof.
  assert (Hd : 0 < 5 / 100) by lra.
  assert (Hv : (2 / 100) * sqrt 1 <> 0) by (rewrite sqrt_1; lra).
  split; [exact Hd|]. split; [exact Hv|].
  destruct satid_score_formula as [H _]. exact (H _ _ _ Hd Hv).
Defined.

(** ** Parameters of tickers absent from the record (claim C10) *)

(** The entry [{'period': 8, 'shift': 0}]. *)
Definition default_entry : gmap string R := <["period" := 8]> (<["shift" := 0]> ∅).

Lemma param_get_absent (fbis_params : FbisParams) (ticker : string) :
  fbis_params !! ticker = None -> forall t,
  param_get (<[ticker := default_entry]> fbis_params) t "period" 8 = param_get fbis_params t "period" 8 /\
  param_get (<[ticker := default_entry]> fbis_params) t "shift" 0 = param_get fbis_params t "shift" 0.
Proof.
  intros Hnone t. unfold param_get.
  destruct (decide (ticker = t)) as [<-|Hne].
  - rewrite lookup_insert_eq, Hnone. cbn [default from_option Datatypes.id]. unfold default_entry.
    rewrite lookup_insert_eq, (lookup_insert_ne _ "period" "shift") by discriminate.
    rewrite lookup_insert_eq, !lookup_empty. split; reflexivity.
  - rewrite lookup_insert_ne by exact Hne. split; reflexivity.
Qed.

Lemma series_loop_absent (fbis_params : FbisParams) (ticker : string) (df : OhlcFrame) :
  fbis_params !! ticker = None -> forall allocations pv pf,
  series_loop df fbis_params allocations pv pf =
  series_loop df (<[ticker := default_entry]> fbis_params) allocations pv pf.
Proof.
  intros Hnone allocations. induction allocations as [|[t w] rest IH]; intros pv pf;
    cbn [series_loop]; [reflexivity|].
  destruct (param_get_absent _ _ Hnone t) as [Hp Hs]. rewrite Hp, Hs.
  destruct (f_columns df !! (t +:+ "_close")) as [prices|]; [|apply IH].
  destruct (calculate_ema _ _); [|reflexivity].
  destruct prices; [reflexivity|]. apply IH.
Qed.

Lemma risk_loop_absent (fbis_params : FbisParams) (ticker : string) (df : OhlcFrame)
    (asset_classes : gmap string string) (portfolio_value : R) :
  fbis_params !! ticker = None -> forall allocations rows summary,
  risk_loop df allocations asset_classes fbis_params portfolio_value rows summary =
  risk_loop df allocations asset_classes (<[ticker := default_entry]> fbis_params) portfolio_value
    rows summary.
Proof.
  intros Hnone allocations. induction allocations as [|[t a] rest IH]; intros rows summary;
    cbn [risk_loop]; [reflexivity|].
  destruct (param_get_absent _ _ Hnone t) as [Hp Hs]. rewrite Hp, Hs.
  destruct (f_columns df !! (t +:+ "_close")) as [prices|]; [|apply IH].
  destruct (Fbis.py_last prices); [|reflexivity].
  destruct (calculate_ema _ _); [|reflexivity].
  destruct (Fbis.py_last _); [|reflexivity]. apply IH.
Qed.

(** C10: for a ticker absent from [fbis_params], [analyze_etf_risk],
    [calculate_portfolio_series] and [calculate_portfolio_risk] all behave
    exactly as if the record held [{'period': 8, 'shift': 0}] for it; in
    particular the support level of [analyze_etf_risk] is the last value of
    the EMA of period 8 times [1 + 0].  The optimiser's fixed fallback has
    period 20, not 8. *)
Theorem absent_ticker_period8_shift0 (ticker : string) (fbis_params : FbisParams) :
  fbis_params !! ticker = None ->
  (forall prices weeks,
     analyze_etf_risk ticker prices fbis_params weeks =
     analyze_etf_risk ticker prices (<[ticker := default_entry]> fbis_params) weeks) /\
  (forall prices weeks res,
     analyze_etf_risk ticker prices fbis_params weeks = Some res ->
     exists ema ema_last, calculate_ema prices 8 = Some ema /\ Fbis.py_last ema = Some ema_last /\
       er_fbis res = ema_last * (1 + 0)) /\
  (forall df allocations,
     calculate_portfolio_series df allocations fbis_params =
     calculate_portfolio_series df allocations (<[ticker := default_entry]> fbis_params)) /\
  (forall df allocations asset_classes portfolio_value,
     calculate_portfolio_risk df allocations asset_classes fbis_params portfolio_value =
     calculate_portfolio_risk df allocations asset_classes (<[ticker := default_entry]> fbis_params)
       portfolio_value) /\
  IZR (Fbis.r_period (Fbis.default_result 0%Z)) <> 8.
Proof.
  intros Hnone.
  destruct (param_get_absent _ _ Hnone ticker) as [Hp Hs].
  split; [|split; [|split; [|split]]].
  - intros prices weeks. unfold analyze_etf_risk. rewrite Hp, Hs. reflexivity.
  - intros prices weeks res H. unfold analyze_etf_risk in H.
    assert (E8 : param_get fbis_params ticker "period" 8 = 8).
    { unfold param_get. rewrite Hnone. reflexivity. }
    assert (E0 : param_get fbis_params ticker "shift" 0 = 0).
    { unfold param_get. rewrite Hnone. reflexivity. }
    rewrite E8, E0 in H.
    destruct (Fbis.py_last prices); [|discriminate].
    destruct (calculate_ema prices 8) as [ema|]; [|discriminate].
    destruct (Fbis.py_last ema) as [e|] eqn:Ee; [|discriminate].
    injection H as <-. exists ema, e. split; [reflexivity|]. split; [exact Ee|reflexivity].
  - intros df allocations. unfold calculate_portfolio_series.
    rewrite (series_loop_absent _ _ df Hnone). reflexivity.
  - intros df allocations asset_classes portfolio_value. unfold calculate_portfolio_risk.
    rewrite (risk_loop_absent _ _ df asset_classes portfolio_value Hnone). reflexivity.
  - cbn. intros H. apply eq_IZR in H. discriminate.
Qed.

Lemma absent_ticker_period8_shift0_witness :
  (∅ : FbisParams) !! "SPY" = None /\
  analyze_etf_risk "SPY" [1; 2] ∅ 13 = analyze_etf_risk "SPY" [1; 2] (<["SPY" := default_entry]> ∅) 13.
Proof.
  assert (H : (∅ : FbisParams) !! "SPY" = None) by reflexivity.
  split; [exact H|].
  destruct (absent_ticker_period8_shift0 "SPY" ∅ H) as [H1 _]. apply H1.
Defined.

(** ** The two EMA implementations agree *)

Lemma ewm_go_Q2R (alpha : Q) (xs : list Q) : forall prev,
  map Q2R (Fbis.ewm_go alpha prev xs) = ema_go (Q2R alpha) (Q2R prev) (map Q2R xs).
Proof.
  induction xs as [|x xs IH]; intros prev; [reflexivity|].
  cbn [Fbis.ewm_go ema_go map]. rewrite IH.
  assert (E : Q2R ((1 - alpha) * prev + alpha * x) = Q2R x * Q2R alpha + Q2R prev * (1 - Q2R alpha)).
  { rewrite Q2R_plus, !Q2R_mult, Q2R_minus, RMicromega.Q2R_1. ring. }
  rewrite E. reflexivity.
Qed.

Lemma Q2R_inject_Z (z : Z) : Q2R (inject_Z z) = IZR z.
Proof. unfold Q2R, inject_Z. cbn [Qnum Qden]. rewrite Rinv_1. ring. Qed.

Lemma Q2R_ewm_alpha (span : Z) : Q2R (2 / (inject_Z span + 1)) = 2 / (IZR span + 1).
Proof.
  unfold Qdiv. rewrite Q2R_mult, RMicromega.Q2R_inv_ext, Q2R_plus, Q2R_inject_Z, RMicromega.Q2R_1.
  replace (Q2R 2) with 2 by (unfold Q2R; cbn; field).
  destruct (Qeq_bool (inject_Z span + 1) 0) eqn:E.
  - apply Qeq_bool_eq in E. apply Qeq_eqR in E.
    rewrite Q2R_plus, Q2R_inject_Z, RMicromega.Q2R_1, RMicromega.Q2R_0 in E.
    unfold Rdiv. rewrite E, Rinv_0. ring.
  - reflexivity.
Qed.

(** The optimiser's EMA ([ewm(span=period, adjust=False).mean()]) and the
    dashboards' [calculate_ema] compute the same series: for a period of
    at least 1 (pandas refuses a smaller span), on the same prices they
    agree value by value; on an empty series pandas returns an empty
    series where [calculate_ema] raises. *)
Theorem ewm_mean_calculate_ema (span : Z) (xs : list Q) (Hspan : (1 <= span)%Z) :
  calculate_ema (map Q2R xs) (IZR span) =
  match xs with [] => None | _ :: _ => Some (map Q2R (Fbis.ewm_mean span xs)) end.
Proof.
  destruct xs as [|x xs]; [reflexivity|].
  unfold calculate_ema, Fbis.ewm_mean. cbn [map].
  destruct (Req_dec_T (IZR span + 1) 0) as [E|_].
  { exfalso. apply IZR_le in Hspan. lra. }
  rewrite ewm_go_Q2R, Q2R_ewm_alpha. reflexivity.
Qed.

Lemma ewm_mean_calculate_ema_witness :
  (1 <= 8)%Z /\
  calculate_ema (map Q2R [1; 2; 3]%Q) (IZR 8) = Some (map Q2R (Fbis.ewm_mean 8 [1; 2; 3]%Q)).
Proof. split; [lia | apply (ewm_mean_calculate_ema 8 [1; 2; 3]%Q); lia]. Defined.

(** ** Range of the EMA *)

Lemma ema_go_length (k : R) (xs : list R) : forall prev, length (ema_go k prev xs) = length xs.
Proof. induction xs as [|x xs IH]; intros prev; simpl; [reflexivity|]. f_equal. apply IH. Qed.

Lemma ema_go_between (k lo hi : R) (xs : list R) :
  0 <= k <= 1 -> forall prev, lo <= prev <= hi -> Forall (fun x => lo <= x <= hi) xs ->
  Forall (fun e => lo <= e <= hi) (ema_go k prev xs).
Proof.
  intros Hk. induction xs as [|x xs IH]; intros prev Hp Hxs; simpl; [constructor|].
  inversion Hxs as [|? ? Hx Hr]; subst.
  assert (He : lo <= x * k + prev * (1 - k) <= hi) by nra.
  constructor; [exact He|]. apply IH; assumption.
Qed.

(** For a period of at least 1 (smoothing factor [k = 2/(period+1)] in
    (0, 1]), [calculate_ema] returns one value per price, starts at the
    first price, and every value lies between the smallest and the largest
    price; it fails exactly on an empty series. *)
Theorem calculate_ema_range (prices : list R) (period : R) (Hp : 1 <= period) :
  (calculate_ema prices period = None <-> prices = []) /\
  forall ema, calculate_ema prices period = Some ema ->
    length ema = length prices /\ head ema = head prices /\
    forall lo hi, Forall (fun x => lo <= x <= hi) prices -> Forall (fun e => lo <= e <= hi) ema.
Proof.
  assert (Hk : period + 1 <> 0) by lra.
  split.
  - destruct prices; simpl; [split; congruence|].
    destruct (Req_dec_T (period + 1) 0) as [E|_]; [contradiction|]. split; congruence.
  - intros ema H. destruct prices as [|p0 r]; [discriminate|]. cbn in H.
    destruct (Req_dec_T (period + 1) 0) as [E|_]; [contradiction|].
    injection H as <-. split; [cbn; rewrite ema_go_length; reflexivity|]. split; [reflexivity|].
    intros lo hi Hf. inversion Hf as [|? ? H0 Hr]; subst.
    constructor; [exact H0|]. apply ema_go_between; try assumption.
    assert (0 < period + 1) by lra. split.
    + apply Rlt_le, Rdiv_lt_0_compat; lra.
    + apply (Rmult_le_reg_r (period + 1)); [lra|]. unfold Rdiv.
      rewrite Rmult_assoc, Rinv_l by lra. lra.
Qed.

Lemma calculate_ema_range_witness :
  1 <= 8 /\ (calculate_ema [1; 2; 3] 8 = None <-> [1; 2; 3] = []).
Proof.
  assert (H : 1 <= 8) by lra. split; [exact H|].
  exact (proj1 (calculate_ema_range [1; 2; 3] 8 H)).
Defined.

(** ** Score monotonicity *)

Lemma clamp_mono (a b : R) : a <= b -> py_max 0 (py_min 100 a) <= py_max 0 (py_min 100 b).
Proof.
  intros Hab. unfold py_max, py_min.
  destruct (Rlt_dec a 100); destruct (Rlt_dec b 100);
    try destruct (Rlt_dec 0 a); try destruct (Rlt_dec 0 b); try destruct (Rlt_dec 0 100); lra.
Qed.

Lemma score_bounds (d v h : R) : 0 <= calculate_satid_score_linear d v h <= 100.
Proof.
  unfold calculate_satid_score_linear, py_max, py_min.
  destruct (Rle_dec d 0); [lra|].
  set (sc := 100 - d / (v * sqrt h) * 25).
  destruct (Rlt_dec sc 100); [destruct (Rlt_dec 0 sc) | destruct (Rlt_dec 0 100)]; lra.
Qed.

Lemma score_mono (d1 d2 v1 v2 h1 h2 : R) :
  0 < v1 -> 0 < h1 -> d2 <= d1 -> v1 <= v2 -> h1 <= h2 ->
  calculate_satid_score_linear d1 v1 h1 <= calculate_satid_score_linear d2 v2 h2.
Proof.
  intros Hv Hh Hd Hvv Hhh. unfold calculate_satid_score_linear.
  destruct (Rle_dec d2 0) as [H2|H2].
  - destruct (Rle_dec d1 0); [lra|]. unfold py_max, py_min.
    set (sc := 100 - d1 / (v1 * sqrt h1) * 25).
    destruct (Rlt_dec sc 100); [destruct (Rlt_dec 0 sc) | destruct (Rlt_dec 0 100)]; lra.
  - destruct (Rle_dec d1 0) as [H1|H1]; [lra|].
    apply clamp_mono.
    assert (Hs1 : 0 < sqrt h1) by (apply sqrt_lt_R0; exact Hh).
    assert (Hs : sqrt h1 <= sqrt h2) by (apply sqrt_le_1; lra).
    assert (Hvs : v1 * sqrt h1 <= v2 * sqrt h2) by (apply Rmult_le_compat; lra).
    assert (Hpos : 0 < v1 * sqrt h1) by (apply Rmult_lt_0_compat; lra).
    assert (Hz : d2 / (v2 * sqrt h2) <= d1 / (v1 * sqrt h1)).
    { unfold Rdiv. apply Rmult_le_compat; try lra.
      - apply Rlt_le, Rinv_0_lt_compat. lra.
      - apply Rinv_le_contravar; assumption. }
    lra.
Qed.

(** For a positive weekly volatility and horizon, the linear SATID score
    never decreases when the distance to the support shrinks, when the
    volatility grows or when the horizon lengthens. *)
Theorem satid_score_monotone (d1 d2 v1 v2 h1 h2 : R) (Hv : 0 < v1) (Hh : 0 < h1)
    (Hd : d2 <= d1) (Hvv : v1 <= v2) (Hhh : h1 <= h2) :
  calculate_satid_score_linear d1 v1 h1 <= calculate_satid_score_linear d2 v2 h2.
Proof. exact (score_mono d1 d2 v1 v2 h1 h2 Hv Hh Hd Hvv Hhh). Qed.

Lemma satid_score_monotone_witness :
  calculate_satid_score_linear (5 / 100) (2 / 100) 1 <=
  calculate_satid_score_linear (2 / 100) (3 / 100) (433 / 100).
Proof. apply satid_score_monotone; lra. Defined.

(** ** Per-ETF analysis *)

Lemma py_last_none {A} (l : list A) : Fbis.py_last l = None <-> l = [].
Proof.
  induction l as [|a l IH]; [split; reflexivity|]. cbn. split; [|discriminate].
  destruct l; [discriminate|]. intros H. apply IH in H. discriminate.
Qed.

Lemma calculate_ema_none (prices : list R) (period : R) :
  calculate_ema prices period = None <-> prices = [] \/ period + 1 = 0.
Proof.
  destruct prices as [|p0 r]; cbn; [split; [left; reflexivity | reflexivity]|].
  destruct (Req_dec_T (period + 1) 0) as [E|E].
  - split; [right; exact E | reflexivity].
  - split; [discriminate | intros [H|H]; [discriminate | contradiction]].
Qed.

Lemma calculate_ema_length (prices : list R) (period : R) (ema : list R) :
  calculate_ema prices period = Some ema -> length ema = length prices.
Proof.
  destruct prices as [|p0 r]; cbn; [discriminate|].
  destruct (Req_dec_T (period + 1) 0); [discriminate|].
  intros H. injection H as <-. cbn. rewrite ema_go_length. reflexivity.
Qed.

(** [analyze_etf_risk] fails exactly on an empty price series or when the
    ticker's period is -1 ([2 / (period + 1)] divides by zero).
    Otherwise its current price is the last price, both scores are in
    [0, 100], the one-month score is at least the one-week score when the
    volatility is positive, and both scores are 100 when a positive price
    is at or below its support level. *)
Theorem analyze_etf_risk_scores (ticker : string) (prices : list R) (fbis_params : FbisParams)
    (weeks : nat) :
  (analyze_etf_risk ticker prices fbis_params weeks = None <->
   prices = [] \/ param_get fbis_params ticker "period" 8 + 1 = 0) /\
  forall r, analyze_etf_risk ticker prices fbis_params weeks = Some r ->
    er_ticker r = ticker /\ Fbis.py_last prices = Some (er_current_price r) /\
    er_volatility_weekly r = calculate_etf_volatility prices weeks /\
    0 <= er_satid_score_1week r <= 100 /\ 0 <= er_satid_score_1month r <= 100 /\
    (0 < er_volatility_weekly r -> er_satid_score_1week r <= er_satid_score_1month r) /\
    (0 < er_current_price r -> er_current_price r <= er_fbis r ->
       er_satid_score_1week r = 100 /\ er_satid_score_1month r = 100).
Proof.
  unfold analyze_etf_risk.
  destruct (Fbis.py_last prices) as [cur|] eqn:Ec.
  2:{ apply py_last_none in Ec. subst prices.
      split; [split; [intros _; left; reflexivity | reflexivity] | discriminate]. }
  assert (Hne : prices <> []) by (intros ->; discriminate).
  destruct (calculate_ema prices _) as [ema|] eqn:Ee.
  2:{ apply calculate_ema_none in Ee. split; [|discriminate].
      split; [intros _; exact Ee | reflexivity]. }
  destruct (Fbis.py_last ema) as [el|] eqn:El.
  2:{ apply py_last_none in El. subst ema. apply calculate_ema_length in Ee.
      destruct prices; [congruence|discriminate]. }
  split.
  { split; [discriminate|]. intros H. apply calculate_ema_none in H. congruence. }
  intros r H. injection H as <-. cbn.
  split; [reflexivity|]. split; [reflexivity|]. split; [reflexivity|].
  split; [apply score_bounds|]. split; [apply score_bounds|]. split.
  - intros Hv. apply score_mono; try lra.
  - intros Hc Hf. unfold calculate_satid_score_linear.
    destruct (Rle_dec _ 0) as [_|Hn]; [split; reflexivity|]. exfalso. apply Hn.
    assert (Hi : 0 < / cur) by (apply Rinv_0_lt_compat; exact Hc).
    unfold Rdiv. nra.
Qed.

(** ** Individual and portfolio volatilities *)

(** [df.sort_values('Date').tail(n)]: the last [n] rows of every column. *)
Definition frame_tail (n : nat) (df : OhlcFrame) : OhlcFrame :=
  {| f_dates := lastn n (f_dates df); f_columns := lastn n <$> f_columns df |}.

Fixpoint individual_vols_loop (df : OhlcFrame) (tickers : list string) (volatilities : gmap string R)
    : gmap string R :=
  match tickers with
  | [] => volatilities
  | ticker :: rest =>
      match f_columns df !! (ticker +:+ "_close") with
      | None => individual_vols_loop df rest volatilities
      | Some prices =>
          let returns := map (fun '(a, b) => (b - a) / a) (combine prices (tl prices)) in
          individual_vols_loop df rest (<[ticker := np_std_ddof1 returns]> volatilities)
      end
  end.

Definition calculate_individual_volatilities (df : OhlcFrame) (tickers : list string) (weeks : nat)
    : gmap string R :=
  individual_vols_loop (frame_tail (weeks + 1) df) tickers ∅.

(** The correlation matrix of [calculate_correlation_matrix]: its columns
    (the tickers it holds) and its entries [correlation_matrix.loc[a, b]]. *)
Record CorrMatrix := { cm_columns : list string; cm_loc : string -> string -> R }.

Definition cov_entry (correlation_matrix : CorrMatrix) (individual_vols : gmap string R)
    (ticker_i ticker_j : string) : R :=
  if decide (ticker_i ∈ cm_columns correlation_matrix /\ ticker_j ∈ cm_columns correlation_matrix)
  then cm_loc correlation_matrix ticker_i ticker_j * default 0 (individual_vols !! ticker_i) *
       default 0 (individual_vols !! ticker_j)
  else 0.

(** [weights @ cov_matrix @ weights], the tickers in the dict's order. *)
Definition calculate_portfolio_volatility (allocations : list (string * R))
    (correlation_matrix : CorrMatrix) (individual_vols : gmap string R) : R :=
  let portfolio_variance :=
    Rsum (map (fun '(tj, wj) =>
                 Rsum (map (fun '(ti, wi) => wi * cov_entry correlation_matrix individual_vols ti tj)
                           allocations) * wj) allocations) in
  sqrt portfolio_variance.

Lemma lastn_calculate_etf_volatility (prices : list R) (weeks : nat) :
  calculate_etf_volatility prices weeks =
  let recent_prices := lastn (weeks + 1) prices in
  np_std_ddof1 (map (fun '(a, b) => (b - a) / a) (combine recent_prices (tl recent_prices))).
Proof.
  unfold calculate_etf_volatility. destruct (Nat.ltb_spec (length prices) (weeks + 1)) as [H|H];
    [|reflexivity].
  unfold lastn. replace (length prices - (weeks + 1))%nat with 0%nat by lia.
  replace (length prices - (length prices - 1 + 1))%nat with 0%nat by lia. reflexivity.
Qed.

Lemma individual_vols_loop_lookup (df : OhlcFrame) (weeks : nat) (tickers : list string) :
  forall vols t,
  individual_vols_loop (frame_tail (weeks + 1) df) tickers vols !! t =
  match decide (t ∈ tickers), f_columns df !! (t +:+ "_close") with
  | left _, Some prices => Some (calculate_etf_volatility prices weeks)
  | _, _ => vols !! t
  end.
Proof.
  induction tickers as [|t0 rest IH]; intros vols t; cbn [individual_vols_loop].
  - destruct (decide (t ∈ [])) as [Hin|]; [apply elem_of_nil in Hin; contradiction|].
    destruct (f_columns df !! (t +:+ "_close")); reflexivity.
  - cbn [frame_tail f_columns]. rewrite lookup_fmap.
    change (lastn (weeks + 1) <$> f_columns df) with (f_columns (frame_tail (weeks + 1) df)).
    destruct (decide (t = t0)) as [->|Hne].
    + destruct (decide (t0 ∈ t0 :: rest)) as [_|Hn]; [|exfalso; apply Hn; apply elem_of_cons; left; reflexivity].
      destruct (f_columns df !! (t0 +:+ "_close")) as [p0|] eqn:E0; cbn [fmap option_fmap option_map];
        rewrite IH; rewrite E0.
      * rewrite lookup_insert_eq, lastn_calculate_etf_volatility.
        destruct (decide (t0 ∈ rest)); reflexivity.
      * destruct (decide (t0 ∈ rest)); reflexivity.
    + assert (Hiff : t ∈ t0 :: rest <-> t ∈ rest).
      { rewrite elem_of_cons. split; [intros [->|H]; [contradiction|exact H] | intros H; right; exact H]. }
      destruct (f_columns df !! (t0 +:+ "_close")) as [p0|] eqn:E0; cbn [fmap option_fmap option_map];
        rewrite IH.
      * rewrite lookup_insert_ne by (intros ->; contradiction).
        destruct (decide (t ∈ rest)) as [H1|H1]; destruct (decide (t ∈ t0 :: rest)) as [H2|H2];
          try tauto; reflexivity.
      * destruct (decide (t ∈ rest)) as [H1|H1]; destruct (decide (t ∈ t0 :: rest)) as [H2|H2];
          try tauto; reflexivity.
Qed.

(** [calculate_individual_volatilities] and [calculate_etf_volatility]
    agree: a ticker gets a volatility exactly when it is requested and has
    a close column, and that volatility is [calculate_etf_volatility] of
    its whole close column with the same lookback. *)
Theorem individual_volatilities_agree (df : OhlcFrame) (tickers : list string) (weeks : nat)
    (t : string) :
  calculate_individual_volatilities df tickers weeks !! t =
  if decide (t ∈ tickers)
  then (fun prices => calculate_etf_volatility prices weeks) <$> f_columns df !! (t +:+ "_close")
  else None.
Proof.
  unfold calculate_individual_volatilities. rewrite individual_vols_loop_lookup.
  destruct (decide (t ∈ tickers)); destruct (f_columns df !! (t +:+ "_close")); reflexivity.
Qed.

Lemma Rsum_map_mult_r {A} (f : A -> R) (c : R) (l : list A) :
  Rsum (map (fun x => f x * c) l) = Rsum (map f l) * c.
Proof.
  unfold Rsum. induction l as [|x l IH]; cbn [map fold_right]; [ring|]. rewrite IH. ring.
Qed.

Lemma Rsum_map_ext {A} (f g : A -> R) (l : list A) :
  (forall x, In x l -> f x = g x) -> Rsum (map f l) = Rsum (map g l).
Proof.
  unfold Rsum. induction l as [|x l IH]; intros H; cbn [map fold_right]; [reflexivity|].
  rewrite (H x (or_introl eq_refl)), IH; [reflexivity|]. intros y Hy. apply H. right. exact Hy.
Qed.

(** With every pair of the matrix's tickers perfectly correlated, the
    portfolio volatility is the absolute value of the weighted sum of the
    individual volatilities, over the tickers the matrix holds (a ticker
    missing from the matrix or from [individual_vols] adds nothing). *)
Theorem portfolio_volatility_perfect_correlation (allocations : list (string * R))
    (correlation_matrix : CorrMatrix) (individual_vols : gmap string R)
    (Hcorr : forall a b, a ∈ cm_columns correlation_matrix -> b ∈ cm_columns correlation_matrix ->
       cm_loc correlation_matrix a b = 1) :
  calculate_portfolio_volatility allocations correlation_matrix individual_vols =
  Rabs (Rsum (map (fun '(t, w) =>
                     if decide (t ∈ cm_columns correlation_matrix)
                     then w * default 0 (individual_vols !! t) else 0) allocations)).
Proof.
  unfold calculate_portfolio_volatility.
  set (g := fun '(t, w) => if decide (t ∈ cm_columns correlation_matrix)
                           then w * default 0 (individual_vols !! t) else 0 : R).
  set (S := Rsum (map g allocations)).
  assert (Hin : forall tj wj,
    Rsum (map (fun '(ti, wi) => wi * cov_entry correlation_matrix individual_vols ti tj) allocations)
      * wj = S * g (tj, wj)).
  { intros tj wj.
    replace (Rsum (map (fun '(ti, wi) => wi * cov_entry correlation_matrix individual_vols ti tj)
                  allocations))
      with (Rsum (map (fun x => g x * (if decide (tj ∈ cm_columns correlation_matrix)
                                        then default 0 (individual_vols !! tj) else 0)) allocations)).
    - rewrite Rsum_map_mult_r. fold S. cbn [g]. destruct (decide (tj ∈ _)); ring.
    - apply Rsum_map_ext. intros [ti wi] _. cbn [g]. unfold cov_entry.
      destruct (decide (ti ∈ _)) as [Hi|Hi]; destruct (decide (tj ∈ _)) as [Hj|Hj];
        destruct (decide (_ /\ _)) as [Hb|Hb]; try tauto.
      + rewrite (Hcorr ti tj Hi Hj). ring.
      + ring.
      + ring.
      + ring. }
  rewrite (Rsum_map_ext _ (fun x => S * g x)).
  - rewrite (Rsum_map_ext (fun x => S * g x) (fun x => g x * S)) by (intros; ring).
    rewrite Rsum_map_mult_r. fold S. apply sqrt_Rsqr_abs.
  - intros [tj wj] _. apply Hin.
Qed.

Definition perfect_corr : CorrMatrix := {| cm_columns := ["SPY"; "TLT"]; cm_loc := fun _ _ => 1 |}.

Lemma portfolio_volatility_perfect_correlation_witness :
  (forall a b, a ∈ cm_columns perfect_corr -> b ∈ cm_columns perfect_corr -> cm_loc perfect_corr a b = 1) /\
  calculate_portfolio_volatility [("SPY", 6 / 10); ("TLT", 4 / 10)] perfect_corr
    (<["SPY" := 2 / 100]> (<["TLT" := 1 / 100]> ∅)) =
  Rabs (Rsum (map (fun '(t, w) =>
                     if decide (t ∈ cm_columns perfect_corr)
                     then w * default 0 ((<["SPY" := 2 / 100]> (<["TLT" := 1 / 100]> ∅) : gmap string R) !! t)
                     else 0) [("SPY", 6 / 10); ("TLT", 4 / 10)])).
Proof.
  assert (H : forall a b, a ∈ cm_columns perfect_corr -> b ∈ cm_columns perfect_corr ->
                cm_loc perfect_corr a b = 1) by reflexivity.
  split; [exact H|]. exact (portfolio_volatility_perfect_correlation _ _ _ H).
Defined.

(** ** Portfolio SATID scores *)

(** [calculate_portfolio_satid_scores] writes [allocation] and the two
    contributions into each result dict it is given; the loop returns the
    two running sums and the results as they are after the writes. *)
Fixpoint satid_scores_loop (allocations : gmap string R) (etf_results : list EtfRisk)
    (score_1week score_1month : R) : R * R * list EtfRisk :=
  match etf_results with
  | [] => (score_1week, score_1month, [])
  | result :: rest =>
      let weight := default 0 (allocations !! er_ticker result) in
      let result' := {| er_ticker := er_ticker result; er_current_price := er_current_price result;
                        er_fbis := er_fbis result; er_distance_pct := er_distance_pct result;
                        er_volatility_weekly := er_volatility_weekly result;
                        er_satid_score_1week := er_satid_score_1week result;
                        er_satid_score_1month := er_satid_score_1month result;
                        er_allocation := weight;
                        er_contribution_1week := er_satid_score_1week result * weight;
                        er_contribution_1month := er_satid_score_1month result * weight |} in
      let '(s1, s2, rs) :=
        satid_scores_loop allocations rest (score_1week + er_satid_score_1week result * weight)
          (score_1month + er_satid_score_1month result * weight) in
      (s1, s2, result' :: rs)
  end.

Definition calculate_portfolio_satid_scores (etf_results : list EtfRisk) (allocations : gmap string R)
    : R * R * list EtfRisk :=
  satid_scores_loop allocations etf_results 0 0.

Lemma satid_scores_loop_spec (allocations : gmap string R) (etf_results : list EtfRisk) :
  forall s1 s2,
  let '(p1, p2, rs) := satid_scores_loop allocations etf_results s1 s2 in
  p1 = s1 + Rsum (map er_contribution_1week rs) /\ p2 = s2 + Rsum (map er_contribution_1month rs) /\
  map er_ticker rs = map er_ticker etf_results /\
  Forall2 (fun r r' => er_allocation r' = default 0 (allocations !! er_ticker r) /\
             er_satid_score_1week r' = er_satid_score_1week r /\
             er_satid_score_1month r' = er_satid_score_1month r /\
             er_contribution_1week r' = er_satid_score_1week r * er_allocation r' /\
             er_contribution_1month r' = er_satid_score_1month r * er_allocation r') etf_results rs.
Proof.
  induction etf_results as [|r rest IH]; intros s1 s2; cbn [satid_scores_loop].
  - cbn. split; [ring|]. split; [ring|]. split; constructor.
  - specialize (IH (s1 + er_satid_score_1week r * default 0 (allocations !! er_ticker r))
                   (s2 + er_satid_score_1month r * default 0 (allocations !! er_ticker r))).
    destruct (satid_scores_loop _ rest _ _) as [[p1 p2] rs].
    destruct IH as (H1 & H2 & Ht & Hf).
    unfold Rsum in *. cbn [map fold_right er_contribution_1week er_contribution_1month er_ticker].
    split; [rewrite H1; ring|]. split; [rewrite H2; ring|]. split; [f_equal; exact Ht|].
    constructor; [cbn; repeat split; reflexivity | exact Hf].
Qed.

(** The portfolio scores of [calculate_portfolio_satid_scores] are the
    sums of the contributions it writes into the results: each result gets
    its ticker's allocation (0 when the ticker has none) and the
    contributions score times allocation.  With nonnegative allocations and
    scores in [0, 100], each portfolio score lies between 0 and 100 times
    the total allocation of the results. *)
Theorem portfolio_satid_scores_sum (etf_results : list EtfRisk) (allocations : gmap string R)
    (p1 p2 : R) (rs : list EtfRisk)
    (H : calculate_portfolio_satid_scores etf_results allocations = (p1, p2, rs)) :
  p1 = Rsum (map er_contribution_1week rs) /\ p2 = Rsum (map er_contribution_1month rs) /\
  map er_ticker rs = map er_ticker etf_results /\
  Forall2 (fun r r' => er_allocation r' = default 0 (allocations !! er_ticker r) /\
             er_contribution_1week r' = er_satid_score_1week r * er_allocation r' /\
             er_contribution_1month r' = er_satid_score_1month r * er_allocation r') etf_results rs /\
  ((forall t w, allocations !! t = Some w -> 0 <= w) ->
   Forall (fun r => 0 <= er_satid_score_1week r <= 100 /\ 0 <= er_satid_score_1month r <= 100)
     etf_results ->
   0 <= p1 <= 100 * Rsum (map er_allocation rs) /\ 0 <= p2 <= 100 * Rsum (map er_allocation rs)).
Proof.
  pose proof (satid_scores_loop_spec allocations etf_results 0 0) as Hs.
  unfold calculate_portfolio_satid_scores in H. rewrite H in Hs.
  destruct Hs as (H1 & H2 & Ht & Hf).
  split; [rewrite H1; ring|]. split; [rewrite H2; ring|]. split; [exact Ht|]. split.
  - eapply Forall2_impl; [exact Hf|]. intros r r' (? & ? & ? & ? & ?). repeat split; assumption.
  - intros Hw Hsc. rewrite H1, H2, !Rplus_0_l. clear H H1 H2 Ht.
    induction Hf as [|r r' l l' (Ha & E1 & E2 & C1 & C2) Hf IH]; [unfold Rsum; cbn; lra|].
    inversion Hsc as [|? ? [B1 B2] Hsc']; subst.
    specialize (IH Hsc').
    assert (Hwa : 0 <= er_allocation r').
    { rewrite Ha. destruct (allocations !! er_ticker r) as [w|] eqn:Ew; cbn; [eapply Hw; exact Ew | lra]. }
    unfold Rsum in *. cbn [map fold_right]. rewrite C1, C2. nra.
Qed.

Definition sample_risk (ticker : string) (s1 s2 : R) : EtfRisk :=
  {| er_ticker := ticker; er_current_price := 100; er_fbis := 95; er_distance_pct := 5 / 100;
     er_volatility_weekly := 2 / 100; er_satid_score_1week := s1; er_satid_score_1month := s2;
     er_allocation := 0; er_contribution_1week := 0; er_contribution_1month := 0 |}.

Lemma portfolio_satid_scores_sum_witness :
  exists p1 p2 rs,
    calculate_portfolio_satid_scores [sample_risk "SPY" (75 / 2) 60; sample_risk "TLT" 10 20]
      (<["SPY" := 6 / 10]> (<["TLT" := 4 / 10]> ∅)) = (p1, p2, rs) /\
    p1 = Rsum (map er_contribution_1week rs).
Proof.
  destruct (calculate_portfolio_satid_scores [sample_risk "SPY" (75 / 2) 60; sample_risk "TLT" 10 20]
      (<["SPY" := 6 / 10]> (<["TLT" := 4 / 10]> ∅))) as [[p1 p2] rs] eqn:E.
  exists p1, p2, rs. split; [reflexivity|].
  exact (proj1 (portfolio_satid_scores_sum _ _ _ _ _ E)).
Defined.

(** ** Risk statistics *)

Section RiskStatistics.

(** [scipy.stats.norm.cdf], the standard normal distribution function. *)
Variable norm_cdf : R -> R.

Record HorizonStat := { hs_probability : R; hs_var_95 : R }.

Definition horizons : list (string * R) := [("1_week", 1); ("1_month", 433 / 100); ("3_months", 13)].

Definition calculate_risk_statistics (current_value fbis_value portfolio_vol_weekly : R)
    : gmap string HorizonStat * R :=
  let distance_to_fbis := (current_value - fbis_value) / current_value in
  let statistics :=
    fold_left (fun st '(horizon_name, weeks) =>
                 let vol_horizon := portfolio_vol_weekly * sqrt weeks in
                 let z_score := - distance_to_fbis / vol_horizon in
                 <[horizon_name := {| hs_probability := norm_cdf z_score;
                                      hs_var_95 := 1645 / 1000 * vol_horizon |}]> st)
      horizons ∅ in
  (statistics, distance_to_fbis).

End RiskStatistics.

Lemma div_antitone (d a b : R) : 0 <= d -> 0 < a -> a <= b -> d / b <= d / a.
Proof.
  intros Hd Ha Hab. unfold Rdiv. apply Rmult_le_compat_l; [exact Hd|].
  apply Rinv_le_contravar; assumption.
Qed.

Lemma horizon_roots : 0 < sqrt 1 < sqrt (433 / 100) /\ sqrt (433 / 100) < sqrt 13.
Proof.
  rewrite sqrt_1. split; [split; [lra|]|].
  - rewrite <- sqrt_1 at 1. apply sqrt_lt_1; lra.
  - apply sqrt_lt_1; lra.
Qed.

(** For a monotone distribution function and a positive weekly
    volatility, [calculate_risk_statistics] gives the three horizons
    increasing 95% VaR; above the support level the probability of
    reaching it grows with the horizon, at or below it the probability
    shrinks with the horizon.  The distance returned is
    [(current - fbis) / current]. *)
Theorem risk_statistics_horizons (norm_cdf : R -> R)
    (Hmono : forall x y, x <= y -> norm_cdf x <= norm_cdf y) (current_value fbis_value vol : R) :
  let '(statistics, d) := calculate_risk_statistics norm_cdf current_value fbis_value vol in
  d = (current_value - fbis_value) / current_value /\
  exists w m q, statistics !! "1_week" = Some w /\ statistics !! "1_month" = Some m /\
    statistics !! "3_months" = Some q /\
    (0 < vol -> hs_var_95 w < hs_var_95 m < hs_var_95 q) /\
    (0 < vol -> 0 <= d -> hs_probability w <= hs_probability m <= hs_probability q) /\
    (0 < vol -> d <= 0 -> hs_probability q <= hs_probability m <= hs_probability w).
Proof.
  unfold calculate_risk_statistics, horizons. cbn [fold_left].
  set (d := (current_value - fbis_value) / current_value).
  split; [reflexivity|].
  eexists _, _, _. split; [|split; [|split]].
  - rewrite lookup_insert_ne by discriminate. rewrite lookup_insert_ne by discriminate.
    apply lookup_insert_eq.
  - rewrite lookup_insert_ne by discriminate. rewrite lookup_insert_eq. reflexivity.
  - apply lookup_insert_eq.
  - cbn [hs_var_95 hs_probability].
    destruct horizon_roots as [[H0 H1] H2].
    split; [|split].
    + intros Hv. split; apply Rmult_lt_compat_l; try lra; apply Rmult_lt_compat_l; lra.
    + intros Hv Hd.
      assert (A : forall a b, 0 < a -> a <= b -> - d / (vol * a) <= - d / (vol * b)).
      { intros a b Ha Hab. unfold Rdiv. rewrite !Ropp_mult_distr_l_reverse. apply Ropp_le_contravar.
        apply div_antitone; [exact Hd | apply Rmult_lt_0_compat; lra | apply Rmult_le_compat_l; lra]. }
      split; apply Hmono, A; lra.
    + intros Hv Hd.
      assert (A : forall a b, 0 < a -> a <= b -> - d / (vol * b) <= - d / (vol * a)).
      { intros a b Ha Hab. apply div_antitone; [lra | apply Rmult_lt_0_compat; lra |
          apply Rmult_le_compat_l; lra]. }
      split; apply Hmono, A; lra.
Qed.

Lemma risk_statistics_horizons_witness :
  (forall x y : R, x <= y -> (fun z => z) x <= (fun z => z) y) /\
  let '(statistics, d) := calculate_risk_statistics (fun z => z) 105 100 (2 / 100) in
  d = (105 - 100) / 105 /\
  exists w m q, statistics !! "1_week" = Some w /\ statistics !! "1_month" = Some m /\
    statistics !! "3_months" = Some q /\
    (0 < 2 / 100 -> hs_var_95 w < hs_var_95 m < hs_var_95 q) /\
    (0 < 2 / 100 -> 0 <= d -> hs_probability w <= hs_probability m <= hs_probability q) /\
    (0 < 2 / 100 -> d <= 0 -> hs_probability q <= hs_probability m <= hs_probability w).
Proof.
  assert (H : forall x y : R, x <= y -> (fun z => z) x <= (fun z => z) y) by (intros; lra).
  split; [exact H|]. exact (risk_statistics_horizons (fun z => z) H 105 100 (2 / 100)).
Defined.

(** ** Portfolio risk exposure by asset class *)

Definition class_rows (ac : string) (rows : list RiskRow) : list RiskRow :=
  List.filter (fun r => bool_decide (rr_asset_class r = ac)) rows.

(** The running summary of [calculate_portfolio_risk] before its final
    division: per class, the count, the weight, the weighted distance and
    the dollars at risk of the rows of that class. *)
Definition summary_sums (rows : list RiskRow) (summary : gmap string ClassSummary) : Prop :=
  forall ac, match summary !! ac with
  | None => Forall (fun r => rr_asset_class r <> ac) rows
  | Some s => cs_count s = length (class_rows ac rows) /\
      cs_weight s = Rsum (map rr_allocation (class_rows ac rows)) /\
      cs_avg_dist s = Rsum (map (fun r => rr_pct_to_support r * rr_allocation r) (class_rows ac rows)) /\
      cs_usd_at_risk s = Rsum (map rr_usd_at_risk (class_rows ac rows))
  end.

Definition has_close (df : OhlcFrame) (ticker : string) : bool :=
  bool_decide (is_Some (f_columns df !! (ticker +:+ "_close"))).

Lemma Rsum_app (l1 l2 : list R) : Rsum (l1 ++ l2) = Rsum l1 + Rsum l2.
Proof. unfold Rsum. induction l1 as [|x l1 IH]; cbn; [ring|]. rewrite IH. ring. Qed.

Lemma class_rows_none (ac : string) (rows : list RiskRow) :
  Forall (fun r => rr_asset_class r <> ac) rows -> class_rows ac rows = [].
Proof.
  induction 1 as [|r rows Hr _ IH]; [reflexivity|]. cbn.
  rewrite bool_decide_false by exact Hr. exact IH.
Qed.

Lemma summary_sums_step (rows : list RiskRow) (summary : gmap string ClassSummary) (row : RiskRow) :
  summary_sums rows summary ->
  let s := default empty_summary (summary !! rr_asset_class row) in
  summary_sums (rows ++ [row])
    (<[rr_asset_class row := {| cs_weight := cs_weight s + rr_allocation row;
                                cs_avg_dist := cs_avg_dist s + rr_pct_to_support row * rr_allocation row;
                                cs_usd_at_risk := cs_usd_at_risk s + rr_usd_at_risk row;
                                cs_count := S (cs_count s) |}]> summary).
Proof.
  intros Hs s ac. unfold class_rows. rewrite List.filter_app.
  destruct (decide (rr_asset_class row = ac)) as [<-|Hne].
  - rewrite lookup_insert_eq. cbn [List.filter]. rewrite bool_decide_true by reflexivity.
    fold (class_rows (rr_asset_class row) rows).
    rewrite !map_app, !Rsum_app, length_app. cbn [map length]. unfold Rsum at 2 4 6. cbn [fold_right].
    specialize (Hs (rr_asset_class row)). subst s.
    destruct (summary !! rr_asset_class row) as [s0|] eqn:E; cbn [default from_option Datatypes.id cs_weight cs_avg_dist cs_usd_at_risk cs_count empty_summary].
    + destruct Hs as (H1 & H2 & H3 & H4). rewrite H1, H2, H3, H4.
      split; [lia|]. repeat split; ring.
    + rewrite (class_rows_none _ _ Hs). unfold Rsum. cbn. repeat split; ring.
  - rewrite lookup_insert_ne by exact Hne. cbn [List.filter]. rewrite bool_decide_false by exact Hne.
    rewrite app_nil_r. fold (class_rows ac rows). specialize (Hs ac).
    destruct (summary !! ac); [exact Hs|]. apply Forall_app. split; [exact Hs|]. constructor; [exact Hne|constructor].
Qed.

Lemma risk_loop_spec (df : OhlcFrame) (asset_classes : gmap string string) (fbis_params : FbisParams)
    (portfolio_value : R) (allocations : list (string * R)) :
  forall rows0 summary0,
  (risk_loop df allocations asset_classes fbis_params portfolio_value rows0 summary0 = None <->
   exists t w prices, In (t, w) allocations /\ f_columns df !! (t +:+ "_close") = Some prices /\
     (prices = [] \/ param_get fbis_params t "period" 8 + 1 = 0)) /\
  (summary_sums rows0 summary0 ->
   forall rows summary,
   risk_loop df allocations asset_classes fbis_params portfolio_value rows0 summary0 = Some (rows, summary) ->
   summary_sums rows summary /\
   exists added, rows = rows0 ++ added /\
     map (fun r => (rr_ticker r, rr_allocation r)) added =
       List.filter (fun '(t, _) => has_close df t) allocations /\
     Forall (fun r => rr_asset_class r = default "Unknown" (asset_classes !! rr_ticker r)) added).
Proof.
  induction allocations as [|[t a] rest IH]; intros rows0 summary0; cbn [risk_loop].
  - split.
    + split; [discriminate|]. intros (? & ? & ? & [] & _).
    + intros Hs rows summary H. injection H as <- <-. split; [exact Hs|].
      exists []. split; [symmetry; apply app_nil_r|]. split; constructor.
  - unfold has_close at 1. cbn [List.filter].
    destruct (f_columns df !! (t +:+ "_close")) as [prices|] eqn:Ec.
    + rewrite bool_decide_true by (eexists; reflexivity).
      destruct prices as [|p0 pr].
      { cbn. split.
        - split; [|reflexivity]. intros _. exists t, a, [].
          split; [left; reflexivity|]. split; [exact Ec | left; reflexivity].
        - intros _ rows summary H; discriminate. }
      destruct (Fbis.py_last (p0 :: pr)) as [cur|] eqn:Ecur.
      2:{ apply py_last_none in Ecur. discriminate. }
      cbn [calculate_ema].
      destruct (Req_dec_T (param_get fbis_params t "period" 8 + 1) 0) as [Ep|Ep].
      { split.
        - split; [|reflexivity]. intros _. exists t, a, (p0 :: pr).
          split; [left; reflexivity|]. split; [exact Ec | right; exact Ep].
        - intros _ rows summary H; discriminate. }
      destruct (Fbis.py_last (p0 :: ema_go _ p0 pr)) as [el|] eqn:Eel.
      2:{ apply py_last_none in Eel. discriminate. }
      set (row := {| rr_ticker := t; rr_asset_class := default "Unknown" (asset_classes !! t);
                     rr_allocation := a; rr_pct_to_support := (cur - el * (1 + param_get fbis_params t "shift" 0)) / cur * 100;
                     rr_usd_at_risk := portfolio_value * (a / 100) *
                       (- ((cur - el * (1 + param_get fbis_params t "shift" 0)) / cur * 100) / 100) |}).
      split.
      * rewrite (proj1 (IH _ _)). split.
        -- intros (t' & w' & p' & Hin & He). exists t', w', p'. split; [right; exact Hin | exact He].
        -- intros (t' & w' & p' & [Heq|Hin] & He).
           ++ injection Heq as -> ->. destruct He as [He [Hp|Hp]]; rewrite Ec in He;
                injection He as <-; [discriminate | contradiction].
           ++ exists t', w', p'. split; [exact Hin | exact He].
      * intros Hs rows summary H.
        pose proof (summary_sums_step rows0 summary0 row Hs) as Hs'.
        destruct (proj2 (IH _ _) Hs' rows summary H) as (Hsum & added & Hrows & Hmap & Hcls).
        split; [exact Hsum|]. exists (row :: added). split; [rewrite Hrows, <- app_assoc; reflexivity|].
        split; [cbn; f_equal; exact Hmap|]. constructor; [reflexivity | exact Hcls].
    + rewrite bool_decide_false by (intros [? ?]; discriminate).
      split.
      * rewrite (proj1 (IH _ _)). split.
        -- intros (t' & w' & p' & Hin & He). exists t', w', p'. split; [right; exact Hin | exact He].
        -- intros (t' & w' & p' & [Heq|Hin] & He).
           ++ injection Heq as -> ->. destruct He as [He _]. congruence.
           ++ exists t', w', p'. split; [exact Hin | exact He].
      * intros Hs rows summary H. exact (proj2 (IH _ _) Hs rows summary H).
Qed.

(** [calculate_portfolio_risk] fails exactly when an allocated ticker has
    a close column that is empty ([prices[-1]] raises) or a period of -1
    ([calculate_ema] divides by zero).  Otherwise its rows are the allocated tickers
    that have a close column, in allocation order and with their
    allocations, each under its asset class ("Unknown" when it has none);
    a class appears in the summary exactly when it has a row, and its
    count, weight and dollars at risk are those of its rows, its average
    distance their allocation-weighted mean (0 for a class of weight 0 or
    less). *)
Theorem portfolio_risk_by_class (df : OhlcFrame) (allocations : list (string * R))
    (asset_classes : gmap string string) (fbis_params : FbisParams) (portfolio_value : R) :
  (calculate_portfolio_risk df allocations asset_classes fbis_params portfolio_value = None <->
   exists t w prices, In (t, w) allocations /\ f_columns df !! (t +:+ "_close") = Some prices /\
     (prices = [] \/ param_get fbis_params t "period" 8 + 1 = 0)) /\
  forall rows summary,
  calculate_portfolio_risk df allocations asset_classes fbis_params portfolio_value = Some (rows, summary) ->
  map (fun r => (rr_ticker r, rr_allocation r)) rows =
    List.filter (fun '(t, _) => has_close df t) allocations /\
  Forall (fun r => rr_asset_class r = default "Unknown" (asset_classes !! rr_ticker r)) rows /\
  forall ac, match summary !! ac with
  | None => class_rows ac rows = []
  | Some s => cs_count s = length (class_rows ac rows) /\
      cs_weight s = Rsum (map rr_allocation (class_rows ac rows)) /\
      cs_usd_at_risk s = Rsum (map rr_usd_at_risk (class_rows ac rows)) /\
      cs_avg_dist s =
        if Rlt_dec 0 (cs_weight s)
        then Rsum (map (fun r => rr_pct_to_support r * rr_allocation r) (class_rows ac rows)) / cs_weight s
        else 0
  end.
Proof.
  assert (H0 : summary_sums [] ∅) by (intros ac; rewrite lookup_empty; constructor).
  destruct (risk_loop_spec df asset_classes fbis_params portfolio_value allocations [] ∅) as [Hn Hs].
  unfold calculate_portfolio_risk.
  destruct (risk_loop _ _ _ _ _ [] ∅) as [[rows0 summary0]|] eqn:E.
  - split; [split; [discriminate | intros H; apply Hn in H; discriminate]|].
    intros rows summary H. injection H as <- <-.
    destruct (Hs H0 rows0 summary0 eq_refl) as (Hsum & added & -> & Hmap & Hcls).
    cbn [app] in *. split; [exact Hmap|]. split; [exact Hcls|].
    intros ac. rewrite lookup_fmap. specialize (Hsum ac).
    destruct (summary0 !! ac) as [s|]; cbn [fmap option_fmap option_map].
    + destruct Hsum as (H1 & H2 & H3 & H4). cbn [cs_count cs_weight cs_usd_at_risk cs_avg_dist].
      rewrite H1, H2, H4, <- H3. repeat split; reflexivity.
    + apply class_rows_none. exact Hsum.
  - split; [split; [intros _; apply Hn; reflexivity | reflexivity]|]. discriminate.
Qed.

(** ** Normalised portfolio series *)

Lemma vadd_spec (a b : list R) : length a = length b ->
  length (vadd a b) = length a /\ forall i, nth i (vadd a b) 0 = nth i a 0 + nth i b 0.
Proof.
  unfold vadd. revert b. induction a as [|x a IH]; intros [|y b] Hl; cbn in Hl; try discriminate.
  - split; [reflexivity|]. intros [|i]; cbn; ring.
  - injection Hl as Hl. destruct (IH b Hl) as [H1 H2]. cbn. split; [f_equal; exact H1|].
    intros [|i]; [reflexivity | apply H2].
Qed.

Lemma nth_map_lt {A} (f : A -> R) (l : list A) (d : A) (i : nat) :
  (i < length l)%nat -> nth i (map f l) 0 = f (nth i l d).
Proof.
  revert i. induction l as [|x l IH]; intros i Hi; cbn in Hi; [lia|].
  destruct i; cbn; [reflexivity|]. apply IH. lia.
Qed.

Definition value_share (df : OhlcFrame) (i : nat) (tw : string * R) : R :=
  let '(t, w) := tw in
  match f_columns df !! (t +:+ "_close") with
  | Some prices => nth i prices 0 / nth 0 prices 0 * w
  | None => 0
  end.

Definition fbis_start_share (df : OhlcFrame) (fbis_params : FbisParams) (tw : string * R) : R :=
  let '(t, w) := tw in
  if has_close df t then (1 + param_get fbis_params t "shift" 0) * w else 0.

Lemma series_loop_spec (df : OhlcFrame) (fbis_params : FbisParams) (n : nat) (allocations : list (string * R)) :
  (forall t w prices, In (t, w) allocations -> f_columns df !! (t +:+ "_close") = Some prices ->
     length prices = n /\ nth 0 prices 0 <> 0 /\ param_get fbis_params t "period" 8 + 1 <> 0) ->
  (0 < n)%nat ->
  forall pv0 pf0, length pv0 = n -> length pf0 = n ->
  exists pv pf, series_loop df fbis_params allocations pv0 pf0 = Some (pv, pf) /\
    length pv = n /\ length pf = n /\
    (forall i, nth i pv 0 = nth i pv0 0 + Rsum (map (value_share df i) allocations)) /\
    nth 0 pf 0 = nth 0 pf0 0 + Rsum (map (fbis_start_share df fbis_params) allocations).
Proof.
  intros Hcols Hn. induction allocations as [|[t w] rest IH]; intros pv0 pf0 Hv Hf; cbn [series_loop].
  - exists pv0, pf0. split; [reflexivity|]. unfold Rsum. cbn. split; [exact Hv|]. split; [exact Hf|].
    split; [intros i; ring | ring].
  - assert (Hrest : forall t w prices, In (t, w) rest -> f_columns df !! (t +:+ "_close") = Some prices ->
                      length prices = n /\ nth 0 prices 0 <> 0 /\
                      param_get fbis_params t "period" 8 + 1 <> 0)
      by (intros t' w' p' Hin; apply (Hcols t' w' p'); right; exact Hin).
    specialize (IH Hrest).
    unfold Rsum in *. cbn [map fold_right].
    unfold value_share at 1, fbis_start_share at 1, has_close.
    destruct (f_columns df !! (t +:+ "_close")) as [prices|] eqn:Ec.
    + rewrite bool_decide_true by (eexists; reflexivity).
      destruct (Hcols t w prices (or_introl eq_refl) Ec) as (Hlen & Hp0 & Hper).
      destruct prices as [|p0 pr]; [cbn in Hlen; lia|].
      cbn [calculate_ema map].
      destruct (Req_dec_T (param_get fbis_params t "period" 8 + 1) 0) as [Ep|_]; [contradiction|].
      set (sh := param_get fbis_params t "shift" 0).
      set (k := 2 / (param_get fbis_params t "period" 8 + 1)).
      set (vs := map (fun p => p / p0 * w) (p0 :: pr)).
      set (fs := map (fun f => f / p0 * w) (map (fun e => e * (1 + sh)) (p0 :: ema_go k p0 pr))).
      assert (Lvs : length vs = n) by (subst vs; rewrite length_map; exact Hlen).
      assert (Lfs : length fs = n)
        by (subst fs; rewrite !length_map; cbn; rewrite ema_go_length; cbn in Hlen; exact Hlen).
      destruct (vadd_spec pv0 vs ltac:(lia)) as [Lv Nv].
      destruct (vadd_spec pf0 fs ltac:(lia)) as [Lf Nf].
      destruct (IH (vadd pv0 vs) (vadd pf0 fs) ltac:(lia) ltac:(lia))
        as (pv & pf & E & L1 & L2 & Hi & H0).
      exists pv, pf. split; [exact E|]. split; [exact L1|]. split; [exact L2|]. split.
      * intros i. rewrite Hi, Nv.
        assert (Hvi : nth i vs 0 = nth i (p0 :: pr) 0 / nth 0 (p0 :: pr) 0 * w).
        { destruct (Nat.lt_ge_cases i (length (p0 :: pr))) as [Hlt|Hge].
          - subst vs. apply (nth_map_lt (fun p => p / p0 * w) _ 0 i Hlt).
          - rewrite !nth_overflow by (try (subst vs; rewrite length_map); lia).
            unfold Rdiv. ring. }
        rewrite Hvi. ring.
      * rewrite H0, Nf. subst fs. cbn [map nth]. field_simplify; [ring | exact Hp0].
    + rewrite bool_decide_false by (intros [? ?]; discriminate).
      destruct (IH pv0 pf0 Hv Hf) as (pv & pf & E & L1 & L2 & Hi & H0).
      exists pv, pf. split; [exact E|]. split; [exact L1|]. split; [exact L2|]. split.
      * intros i. rewrite Hi. ring.
      * rewrite H0. ring.
Qed.

(** When every allocated ticker's close column has one price per date,
    starting with a nonzero price, its period is not -1 (where
    [calculate_ema] divides by zero), and the frame has at least one date,
    [calculate_portfolio_series] returns one value per date: the value at
    each date is the sum over the allocated tickers with a close column of
    the price relative to the first price times the weight; at the first
    date it is the sum of those weights, and the FBIS series starts at the
    sum of the weights times [1 + shift]. *)
Theorem portfolio_series_normalised (df : OhlcFrame) (allocations : list (string * R))
    (fbis_params : FbisParams)
    (Hcols : forall t w prices, In (t, w) allocations -> f_columns df !! (t +:+ "_close") = Some prices ->
       length prices = length (f_dates df) /\ nth 0 prices 0 <> 0 /\
       param_get fbis_params t "period" 8 + 1 <> 0)
    (Hdates : f_dates df <> []) :
  exists pv pf, calculate_portfolio_series df allocations fbis_params = Some (f_dates df, pv, pf) /\
    length pv = length (f_dates df) /\ length pf = length (f_dates df) /\
    (forall i, nth i pv 0 = Rsum (map (value_share df i) allocations)) /\
    nth 0 pv 0 = Rsum (map (fun '(t, w) => if has_close df t then w else 0) allocations) /\
    nth 0 pf 0 = Rsum (map (fbis_start_share df fbis_params) allocations).
Proof.
  set (n := length (f_dates df)).
  assert (Hn : (0 < n)%nat) by (subst n; destruct (f_dates df); [contradiction | cbn; lia]).
  assert (Hz : forall i, nth i (repeat 0 n) 0 = 0).
  { intros i. destruct (Nat.lt_ge_cases i n).
    - apply nth_repeat_lt. exact H.
    - apply nth_overflow. rewrite repeat_length. exact H. }
  destruct (series_loop_spec df fbis_params n allocations Hcols Hn (repeat 0 n) (repeat 0 n)
              (repeat_length _ _) (repeat_length _ _)) as (pv & pf & E & L1 & L2 & Hi & H0).
  exists pv, pf. unfold calculate_portfolio_series. fold n. rewrite E.
  split; [reflexivity|]. split; [exact L1|]. split; [exact L2|]. split.
  - intros i. rewrite Hi, Hz. ring.
  - split; [|rewrite H0, Hz; ring].
    rewrite Hi, Hz, Rplus_0_l. apply Rsum_map_ext. intros [t w] Hin. unfold value_share, has_close.
    destruct (f_columns df !! (t +:+ "_close")) as [prices|] eqn:Ec.
    + rewrite bool_decide_true by (eexists; reflexivity).
      destruct (Hcols t w prices Hin Ec) as (_ & Hp0 & _). field. exact Hp0.
    + rewrite bool_decide_false by (intros [? ?]; discriminate). reflexivity.
Qed.

Definition sample_ohlc : OhlcFrame :=
  {| f_dates := [0; 7; 14]%Z;
     f_columns := <["SPY_close" := [100; 110; 120]]> (<["TLT_close" := [50; 45; 40]]> ∅) |}.

Lemma portfolio_series_normalised_witness :
  (forall t w prices, In (t, w) [("SPY", 6 / 10); ("TLT", 4 / 10)] ->
     f_columns sample_ohlc !! (t +:+ "_close") = Some prices ->
     length prices = length (f_dates sample_ohlc) /\ nth 0 prices 0 <> 0 /\
     param_get ∅ t "period" 8 + 1 <> 0) /\
  f_dates sample_ohlc <> [] /\
  exists pv pf, calculate_portfolio_series sample_ohlc [("SPY", 6 / 10); ("TLT", 4 / 10)] ∅ =
    Some (f_dates sample_ohlc, pv, pf) /\
    nth 0 pv 0 = Rsum (map (fun '(t, w) => if has_close sample_ohlc t then w else 0)
                          [("SPY", 6 / 10); ("TLT", 4 / 10)]).
Proof.
  assert (H1 : forall t w prices, In (t, w) [("SPY", 6 / 10); ("TLT", 4 / 10)] ->
     f_columns sample_ohlc !! (t +:+ "_close") = Some prices ->
     length prices = length (f_dates sample_ohlc) /\ nth 0 prices 0 <> 0 /\
     param_get ∅ t "period" 8 + 1 <> 0).
  { intros t w prices [Hin|[Hin|[]]] Hc; injection Hin as <- <-; vm_compute in Hc;
      injection Hc as <-; (split; [reflexivity | split; [cbn; lra|]]);
      unfold param_get; rewrite lookup_empty; cbn [default from_option Datatypes.id];
      rewrite lookup_empty; cbn [default from_option Datatypes.id]; lra. }
  assert (H2 : f_dates sample_ohlc <> []) by discriminate.
  split; [exact H1|]. split; [exact H2|].
  destruct (portfolio_series_normalised sample_ohlc _ ∅ H1 H2) as (pv & pf & E & _ & _ & _ & H0 & _).
  exists pv, pf. split; [exact E | exact H0].
Defined.

(** ** Loading allocations from the portfolio sheet *)

(** Python's [str.isspace] on a character of the ASCII range. *)
Definition is_space (c : Ascii.ascii) : bool :=
  let n := Ascii.nat_of_ascii c in
  orb (andb (Nat.leb 9 n) (Nat.leb n 13)) (andb (Nat.leb 28 n) (Nat.leb n 32)).

Fixpoint lstrip_chars (l : list Ascii.ascii) : list Ascii.ascii :=
  match l with
  | c :: r => if is_space c then lstrip_chars r else l
  | [] => []
  end.

(** [str.strip()] *)
Definition strip (s : string) : string :=
  String.string_of_list_ascii
    (rev (lstrip_chars (rev (lstrip_chars (String.list_ascii_of_string s))))).

(** A row of the 'Portfolio' sheet: its second and third cells, as the
    text [str()] gives them ([None] for a missing cell), and its
    ALLOCATIONS cell ([None] for NaN). *)
Record PortfolioRow := { pr_col1 : option string; pr_col2 : option string; pr_alloc : option R }.

Definition categories : list string :=
  ["Cash"; "Fixed Income"; "Core Equity"; "Sector & Thematic"; "Secular Growth";
   "Alternative Investments"].

(** The header rows (index below 10): the category weights, keyed by
    the category whose substring the cell holds on its own row; a NaN
    allocation is kept as NaN ([None]). *)
Definition header_weight (idx : nat) (name : string) : option string :=
  if andb (Fbis.str_contains "Cash" name) (Nat.eqb idx 1) then Some "Cash"
  else if andb (Fbis.str_contains "Fixed Income" name) (Nat.eqb idx 2) then Some "Fixed Income"
  else if andb (Fbis.str_contains "Core Equity" name) (Nat.eqb idx 3) then Some "Core Equity"
  else if andb (Fbis.str_contains "Sectoral" name) (Nat.eqb idx 4) then Some "Sector & Thematic"
  else if andb (Fbis.str_contains "Secular" name) (Nat.eqb idx 5) then Some "Secular Growth"
  else if andb (Fbis.str_contains "Alternative" name) (Nat.eqb idx 6) then Some "Alternative Investments"
  else None.

Fixpoint load_loop (idx : nat) (rows : list PortfolioRow) (current_category : option string)
    (allocations : gmap string R) (asset_classes : gmap string string)
    (category_weights : gmap string (option R))
    : gmap string R * gmap string string * gmap string (option R) :=
  match rows with
  | [] => (allocations, asset_classes, category_weights)
  | row :: rest =>
      if Nat.ltb idx 10 then
        let category_weights' :=
          match pr_col1 row with
          | Some cell =>
              match header_weight idx (strip cell) with
              | Some key => <[key := pr_alloc row]> category_weights
              | None => category_weights
              end
          | None => category_weights
          end in
        load_loop (S idx) rest current_category allocations asset_classes category_weights'
      else
        let new_category :=
          match pr_col1 row with
          | Some cell => if bool_decide (strip cell ∈ categories) then Some (strip cell) else None
          | None => None
          end in
        match new_category with
        | Some category_name =>
            load_loop (S idx) rest (Some category_name) allocations asset_classes category_weights
        | None =>
            match pr_col2 row, current_category with
            | Some cell, Some category =>
                let ticker := strip cell in
                if andb (negb (String.eqb ticker "")) (negb (String.eqb ticker "ETF")) then
                  let allocation := default 0 (pr_alloc row) in
                  if Rlt_dec 0 allocation then
                    load_loop (S idx) rest current_category (<[ticker := allocation]> allocations)
                      (<[ticker := category]> asset_classes) category_weights
                  else load_loop (S idx) rest current_category allocations asset_classes category_weights
                else load_loop (S idx) rest current_category allocations asset_classes category_weights
            | _, _ => load_loop (S idx) rest current_category allocations asset_classes category_weights
            end
        end
  end.

Definition load_portfolio_allocations (rows : list PortfolioRow)
    : gmap string R * gmap string string * gmap string (option R) :=
  load_loop 0 rows None ∅ ∅ ∅.

Definition loaded_entries (src : list PortfolioRow) (allocations : gmap string R)
    (asset_classes : gmap string string) : Prop :=
  forall t, (is_Some (allocations !! t) <-> is_Some (asset_classes !! t)) /\
    (forall a, allocations !! t = Some a -> 0 < a /\ t <> "" /\ t <> "ETF" /\
       exists i row, (10 <= i)%nat /\ nth_error src i = Some row /\
         option_map strip (pr_col2 row) = Some t /\ default 0 (pr_alloc row) = a) /\
    (forall c, asset_classes !! t = Some c -> c ∈ categories).

Lemma skipn_cons_inv {A} (src : list A) : forall idx row rest,
  skipn idx src = row :: rest -> skipn (S idx) src = rest /\ nth_error src idx = Some row.
Proof.
  induction src as [|x src IH]; intros idx row rest H.
  - rewrite skipn_nil in H. discriminate.
  - destruct idx as [|idx]; cbn in H |- *.
    + injection H as -> ->. split; reflexivity.
    + apply IH. exact H.
Qed.

Lemma load_loop_entries (src : list PortfolioRow) : forall rows idx cur allocations asset_classes cw,
  skipn idx src = rows ->
  (forall c, cur = Some c -> c ∈ categories) ->
  loaded_entries src allocations asset_classes ->
  let '(allocations', asset_classes', _) := load_loop idx rows cur allocations asset_classes cw in
  loaded_entries src allocations' asset_classes'.
Proof.
  induction rows as [|row rest IH]; intros idx cur allocations asset_classes cw Hsk Hcur Hinv;
    cbn [load_loop]; [exact Hinv|].
  destruct (skipn_cons_inv src idx row rest Hsk) as [Hsk' Hnth].
  destruct (Nat.ltb_spec idx 10) as [Hlt|Hge]; [apply IH; assumption|].
  destruct (match pr_col1 row with
            | Some cell => if bool_decide (strip cell ∈ categories) then Some (strip cell) else None
            | None => None end) as [name|] eqn:En.
  - apply IH; [exact Hsk' | | exact Hinv].
    intros c [= <-]. destruct (pr_col1 row) as [cell|]; [|discriminate].
    destruct (bool_decide (strip cell ∈ categories)) eqn:Eb; [|discriminate].
    injection En as <-. apply bool_decide_eq_true in Eb. exact Eb.
  - destruct (pr_col2 row) as [cell|] eqn:Ec2; [|apply IH; assumption].
    destruct cur as [category|]; [|apply IH; assumption].
    destruct (String.eqb (strip cell) "") eqn:E1; [apply IH; assumption|].
    destruct (String.eqb (strip cell) "ETF") eqn:E2; [apply IH; assumption|]. cbn [negb andb].
    destruct (Rlt_dec 0 (default 0 (pr_alloc row))) as [Hpos|]; [|apply IH; assumption].
    apply IH; [exact Hsk' | exact Hcur|].
    intros t. destruct (decide (t = strip cell)) as [->|Hne].
    + rewrite !lookup_insert_eq. split; [split; intros _; eexists; reflexivity|]. split.
      * intros a [= <-]. split; [exact Hpos|].
        apply String.eqb_neq in E1, E2. split; [exact E1|]. split; [exact E2|].
        exists idx, row. split; [lia|]. split; [exact Hnth|]. rewrite Ec2. split; reflexivity.
      * intros c [= <-]. apply Hcur. reflexivity.
    + rewrite !lookup_insert_ne by (intros H; apply Hne; symmetry; exact H). apply Hinv.
Qed.

(** Every ticker [load_portfolio_allocations] loads has both an
    allocation and an asset class; its allocation is positive and is the
    ALLOCATIONS cell of a row at index 10 or more whose stripped third cell
    is the ticker, which is never empty nor "ETF"; its asset class is one
    of the six categories. *)
Theorem load_portfolio_allocations_entries (rows : list PortfolioRow) :
  let '(allocations, asset_classes, _) := load_portfolio_allocations rows in
  forall t, (is_Some (allocations !! t) <-> is_Some (asset_classes !! t)) /\
    (forall a, allocations !! t = Some a -> 0 < a /\ t <> "" /\ t <> "ETF" /\
       exists i row, (10 <= i)%nat /\ nth_error rows i = Some row /\
         option_map strip (pr_col2 row) = Some t /\ default 0 (pr_alloc row) = a) /\
    (forall c, asset_classes !! t = Some c -> c ∈ categories).
Proof.
  unfold load_portfolio_allocations.
  pose proof (load_loop_entries rows rows 0 None ∅ ∅ ∅ eq_refl ltac:(discriminate)) as H.
  destruct (load_loop 0 rows None ∅ ∅ ∅) as [[allocations asset_classes] cw].
  apply H. intros t. rewrite !lookup_empty. split; [split; intros [? ?]; discriminate|].
  split; intros ? ?; discriminate.
Qed.

End Core.
